(** * Edge task distribution: scheduler, load balancer, optimizer

    A shallow embedding of the edge-computing engine of the Ventaro AI
    sources (classes [VentaroEdgeComputing], [EdgeLoadBalancer],
    [EdgeTaskScheduler] and [EdgeOptimizer]) and the properties its
    design document states about them.

    Conventions of the embedding.
    - A JavaScript [Map] keeps insertion order; where the order is observed
      ([meshClients], [workers]) it is an association list, elsewhere
      ([processingQueues], [nodeLoads], [tasks]) a [gmap].
    - JavaScript numbers are exact rationals ([Q]); floating-point rounding
      is not modelled.  Resource measurements (what [pidusage] and
      [os.totalmem] report, the fields of a node load, array lengths) are
      non-negative by type.
    - Methods that read or change [this] are functions in a state-and-
      exception monad over the record [EdgeNode].  Logger calls and
      timestamps are left out. *)

From Stdlib Require Import QArith Qminmax Lqa Ascii.
From stdpp Require Import gmap strings list fin_maps.

Local Open Scope string_scope.
Local Open Scope list_scope.

(** ** JavaScript values and objects *)

Module JS.

(** What a property read on the object literal of [getPriorityValue] can
    give: a number (own property) or a member inherited from
    [Object.prototype] (a function, or the prototype object itself for
    [__proto__]). *)
Inductive value : Type :=
| Num (n : Z)
| Inherited (name : string).

#[global] Instance value_eq_dec : EqDecision value.
Proof. solve_decision. Defined.

(** The own property names of [Object.prototype]; every one of them is
    bound to a function or an object. *)
Definition Object_prototype : list string :=
  [ "constructor"; "__defineGetter__"; "__defineSetter__"; "hasOwnProperty";
    "__lookupGetter__"; "__lookupSetter__"; "isPrototypeOf";
    "propertyIsEnumerable"; "toString"; "valueOf"; "__proto__";
    "toLocaleString" ].

(** [obj[key]] on an object literal with numeric own properties: the own
    property if there is one, else what the prototype chain has. *)
Definition get (own : gmap string Z) (key : string) : option value :=
  match own !! key with
  | Some n => Some (Num n)
  | None => if decide (key ∈ Object_prototype) then Some (Inherited key) else None
  end.

(** [ToBoolean]: [0] and [undefined] are falsy, functions and objects are
    truthy. *)
Definition truthy (v : option value) : bool :=
  match v with
  | Some (Num n) => negb (n =? 0)%Z
  | Some (Inherited _) => true
  | None => false
  end.

(** [ToPropertyKey] of a value that is a string or [undefined]. *)
Definition to_key (v : option string) : string :=
  match v with Some s => s | None => "undefined" end.

(** [ToBoolean] of a value that is a string or [undefined]: the empty
    string and [undefined] are falsy. *)
Definition truthy_string (v : option string) : bool :=
  match v with
  | Some s => negb (String.eqb s "")
  | None => false
  end.

End JS.

(** ** Priorities *)

(** The object literal of [getPriorityValue]. *)
Definition priorities : gmap string Z :=
  {[ "low" := 1%Z; "normal" := 5%Z; "high" := 10%Z; "critical" := 20%Z ]}.

(** [return priorities[priority] || 5]. *)
Definition getPriorityValue (priority : option string) : JS.value :=
  let v := JS.get priorities (JS.to_key priority) in
  if JS.truthy v then default (JS.Num 5) v else JS.Num 5.


(** ** Numbers *)

(** A non-negative JavaScript number: a CPU percentage, a memory
    percentage, a queue length. *)
Record measure : Type := Measure { numerator : N; denominator : positive }.

Definition toQ (m : measure) : Q := Z.of_N (numerator m) # denominator m.

Definition percent (n : N) : measure := Measure n 1.

(** [a > b] on numbers. *)
Definition Qgtb (a b : Q) : bool := negb (Qle_bool a b).


(** ** Insertion-ordered maps *)

(** A JavaScript [Map] whose iteration order is observed: the entries in
    insertion order, keys pairwise distinct. *)
Module OMap.
Section ordered_map.
Context {K V : Type} `{EqDecision K}.

Definition keys (m : list (K * V)) : list K := m.*1.
Definition values (m : list (K * V)) : list V := m.*2.
Definition size (m : list (K * V)) : nat := length m.

(** [m.get(k)] *)
Fixpoint get (m : list (K * V)) (k : K) : option V :=
  match m with
  | [] => None
  | (k', v) :: m' => if decide (k' = k) then Some v else get m' k
  end.

(** [m.set(k, v)]: an existing key keeps its position, a new one goes last. *)
Fixpoint set (m : list (K * V)) (k : K) (v : V) : list (K * V) :=
  match m with
  | [] => [(k, v)]
  | (k', v') :: m' =>
      if decide (k' = k) then (k, v) :: m' else (k', v') :: set m' k v
  end.

(** [m.delete(k)] *)
Definition delete (m : list (K * V)) (k : K) : list (K * V) :=
  filter (λ e, e.1 ≠ k) m.

End ordered_map.
End OMap.

(** ** The data model *)

(** A job of a processing queue, as [queue.add(data, opts)] creates it. *)
Record Job : Type := {
  job_id : N;
  job_data : string;
  job_priority : JS.value;
  job_delay : N;
  job_timeout : N
}.

(** A processing queue (a Bull queue): the waiting jobs, which
    [getWaiting()] returns, the jobs added with a delay, and the counter
    job ids come from. *)
Record Queue : Type := {
  waiting : list Job;
  delayed : list Job;
  jobCounter : N
}.

(** What the load balancer knows about a remote node. *)
Record NodeLoad : Type := {
  cpu : measure;
  memory : measure;
  queue : measure
}.

(** The value of [getNodeCapabilities()]. *)
Record Capabilities : Type := {
  ai : list string;
  processing : list string;
  protocols : list string;
  features : list string
}.

(** The record a node publishes in [registerEdgeNode] and peers read back
    in [discoverEdgeNodes]. *)
Record NodeInfo : Type := {
  node_id : string;
  capabilities : Capabilities
}.

(** An entry of [meshClients]. *)
Record MeshClient : Type := {
  node : NodeInfo
}.

(** A worker process of the [cluster] module. *)
Record Worker : Type := {
  worker_id : N
}.

(** An entry of [workers]. *)
Record WorkerInfo : Type := {
  worker : Worker;
  worker_tasks : N;
  worker_memory : N;
  worker_cpu : N
}.

Record TaskOptions : Type := {
  priority : option string;
  timeout : N;
  retries : N;
  nodeAffinity : option string;
  delay : option N
}.

Record Task : Type := {
  task_id : string;
  task_type : string;
  task_data : string;
  options : TaskOptions;
  submittedBy : string;
  status : string;
  jobId : option N
}.

(** The part of [this.config] the embedded methods read. *)
Record Config : Type := {
  nodeId : string;
  cluster_enabled : bool;
  timeoutMs : N;
  retryAttempts : N
}.

(** Events the node emits. *)
Inductive Event : Type :=
| taskStarted (taskId : string).

(** The edge node: the fields of [VentaroEdgeComputing] and of its load
    balancer, what it reads from [os] and [cluster], and the effects it
    has on the outside. *)
Record EdgeNode : Type := {
  config : Config;
  workers : list (N * WorkerInfo);
  processingQueues : gmap string Queue;
  aiModels : list string;
  tasks : gmap string Task;
  meshClients : list (string * MeshClient);
  (* this.metrics *)
  cpuUsage : measure;
  memoryUsage : N;
  (* this.loadBalancer.nodeLoads *)
  nodeLoads : gmap string NodeLoad;
  (* os.totalmem(), os.cpus().length, cluster.isMaster, the id counter of
     cluster.fork() *)
  totalmem : positive;
  cpus : nat;
  isMaster : bool;
  cluster_ids : N;
  (* effects: events emitted, workers killed *)
  emitted : list Event;
  killed : list N;
  (* ghost: the node ids calculateNodeScore was called with, oldest first *)
  scored : list string
}.

Definition with_workers (w : list (N * WorkerInfo)) (st : EdgeNode) : EdgeNode :=
  {| config := config st; workers := w;
     processingQueues := processingQueues st; aiModels := aiModels st;
     tasks := tasks st; meshClients := meshClients st;
     cpuUsage := cpuUsage st; memoryUsage := memoryUsage st;
     nodeLoads := nodeLoads st; totalmem := totalmem st; cpus := cpus st;
     isMaster := isMaster st; cluster_ids := cluster_ids st;
     emitted := emitted st; killed := killed st; scored := scored st |}.

Definition with_processingQueues (q : gmap string Queue) (st : EdgeNode) : EdgeNode :=
  {| config := config st; workers := workers st;
     processingQueues := q; aiModels := aiModels st;
     tasks := tasks st; meshClients := meshClients st;
     cpuUsage := cpuUsage st; memoryUsage := memoryUsage st;
     nodeLoads := nodeLoads st; totalmem := totalmem st; cpus := cpus st;
     isMaster := isMaster st; cluster_ids := cluster_ids st;
     emitted := emitted st; killed := killed st; scored := scored st |}.

Definition with_tasks (t : gmap string Task) (st : EdgeNode) : EdgeNode :=
  {| config := config st; workers := workers st;
     processingQueues := processingQueues st; aiModels := aiModels st;
     tasks := t; meshClients := meshClients st;
     cpuUsage := cpuUsage st; memoryUsage := memoryUsage st;
     nodeLoads := nodeLoads st; totalmem := totalmem st; cpus := cpus st;
     isMaster := isMaster st; cluster_ids := cluster_ids st;
     emitted := emitted st; killed := killed st; scored := scored st |}.

Definition with_cluster_ids (n : N) (st : EdgeNode) : EdgeNode :=
  {| config := config st; workers := workers st;
     processingQueues := processingQueues st; aiModels := aiModels st;
     tasks := tasks st; meshClients := meshClients st;
     cpuUsage := cpuUsage st; memoryUsage := memoryUsage st;
     nodeLoads := nodeLoads st; totalmem := totalmem st; cpus := cpus st;
     isMaster := isMaster st; cluster_ids := n;
     emitted := emitted st; killed := killed st; scored := scored st |}.

Definition with_emitted (e : list Event) (st : EdgeNode) : EdgeNode :=
  {| config := config st; workers := workers st;
     processingQueues := processingQueues st; aiModels := aiModels st;
     tasks := tasks st; meshClients := meshClients st;
     cpuUsage := cpuUsage st; memoryUsage := memoryUsage st;
     nodeLoads := nodeLoads st; totalmem := totalmem st; cpus := cpus st;
     isMaster := isMaster st; cluster_ids := cluster_ids st;
     emitted := e; killed := killed st; scored := scored st |}.

Definition with_killed (k : list N) (st : EdgeNode) : EdgeNode :=
  {| config := config st; workers := workers st;
     processingQueues := processingQueues st; aiModels := aiModels st;
     tasks := tasks st; meshClients := meshClients st;
     cpuUsage := cpuUsage st; memoryUsage := memoryUsage st;
     nodeLoads := nodeLoads st; totalmem := totalmem st; cpus := cpus st;
     isMaster := isMaster st; cluster_ids := cluster_ids st;
     emitted := emitted st; killed := k; scored := scored st |}.

Definition with_scored (s : list string) (st : EdgeNode) : EdgeNode :=
  {| config := config st; workers := workers st;
     processingQueues := processingQueues st; aiModels := aiModels st;
     tasks := tasks st; meshClients := meshClients st;
     cpuUsage := cpuUsage st; memoryUsage := memoryUsage st;
     nodeLoads := nodeLoads st; totalmem := totalmem st; cpus := cpus st;
     isMaster := isMaster st; cluster_ids := cluster_ids st;
     emitted := emitted st; killed := killed st; scored := s |}.

(** ** The monad of the methods *)

(** What a method can throw. *)
Inductive Error : Type :=
| UnknownTaskType (type : string)    (* new Error(`Unknown task type: ${type}`) *)
| TypeError.                         (* a property read on undefined *)

Inductive Outcome (A : Type) : Type :=
| Returned (a : A)
| Thrown (e : Error).
Arguments Returned {A} a.
Arguments Thrown {A} e.

Definition M (A : Type) : Type := EdgeNode → Outcome A * EdgeNode.

#[global] Instance M_ret : MRet M := λ A a st, (Returned a, st).

#[global] Instance M_bind : MBind M := λ A B f m st,
  match m st with
  | (Returned a, st') => f a st'
  | (Thrown e, st') => (Thrown e, st')
  end.

Definition gets {A : Type} (f : EdgeNode → A) : M A :=
  λ st, (Returned (f st), st).

Definition modify (f : EdgeNode → EdgeNode) : M unit :=
  λ st, (Returned (), f st).

Definition throw {A : Type} (e : Error) : M A :=
  λ st, (Thrown e, st).

(** ** The load balancer *)

(** [await queue.getWaiting()] *)
Definition getWaiting (q : Queue) : M (list Job) := mret (waiting q).

(** The load assumed for a remote node the balancer has no entry for. *)
Definition defaultLoad : NodeLoad :=
  {| cpu := percent 50; memory := percent 50; queue := percent 0 |}.

(** [EdgeLoadBalancer.calculateNodeScore(nodeId, task)] *)
Definition calculateNodeScore (node : string) (task : Task) : M Q :=
  modify (λ st, with_scored (scored st ++ [node]) st) ;;
  let score := 100%Q in
  local ← gets (λ st, nodeId (config st));
  if decide (node = local) then
    cpuUsage ← gets cpuUsage;
    memoryUsage ← gets memoryUsage;
    totalmem ← gets totalmem;
    let score := (score - toQ cpuUsage)%Q in
    let score :=
      (score - (inject_Z (Z.of_N memoryUsage) / inject_Z (Z.pos totalmem)) * 100)%Q in
    queue ← gets (λ st, processingQueues st !! task_type task);
    score ← match queue with
            | Some q =>
                waiting ← getWaiting q;
                mret (score - inject_Z (Z.of_nat (length waiting)))%Q
            | None => mret score
            end;
    mret (Qmax 0 score)
  else
    nodeLoads ← gets nodeLoads;
    let nodeLoad := default defaultLoad (nodeLoads !! node) in
    let score := (score - toQ (cpu nodeLoad))%Q in
    let score := (score - toQ (memory nodeLoad))%Q in
    let score := (score - toQ (queue nodeLoad))%Q in
    let score := (score - 10)%Q in
    mret (Qmax 0 score).

(** The loop of [selectOptimalNode] over [availableNodes]. *)
Fixpoint selectLoop (task : Task) (availableNodes : list string)
    (bestNode : string) (bestScore : Q) : M string :=
  match availableNodes with
  | [] => mret bestNode
  | node :: rest =>
      score ← calculateNodeScore node task;
      if Qgtb score bestScore
      then selectLoop task rest node score
      else selectLoop task rest bestNode bestScore
  end.

(** [EdgeLoadBalancer.selectOptimalNode(task)] *)
Definition selectOptimalNode (task : Task) : M string :=
  meshKeys ← gets (λ st, OMap.keys (meshClients st));
  local ← gets (λ st, nodeId (config st));
  let availableNodes := meshKeys ++ [local] in
  bestScore ← calculateNodeScore local task;
  selectLoop task availableNodes local bestScore.

(** ** The scheduler *)

(** [EdgeTaskScheduler.scheduleTask(task)] *)
Definition scheduleTask (task : Task) : M string :=
  match nodeAffinity (options task) with
  | Some affinity =>
      if JS.truthy_string (Some affinity)
      then mret affinity
      else selectOptimalNode task
  | None => selectOptimalNode task
  end.

(** ** Local placement *)

(** [await queue.add(data, opts)]: the job gets the next id and waits, or
    is delayed when [opts.delay] is positive. *)
Definition queue_add (data : string) (priority : JS.value) (delay timeout : N)
    (q : Queue) : Job * Queue :=
  let id := (jobCounter q + 1)%N in
  let job := {| job_id := id; job_data := data; job_priority := priority;
                job_delay := delay; job_timeout := timeout |} in
  if (delay =? 0)%N
  then (job, {| waiting := waiting q ++ [job]; delayed := delayed q;
                jobCounter := id |})
  else (job, {| waiting := waiting q; delayed := delayed q ++ [job];
                jobCounter := id |}).

#[global] Instance TaskOptions_eq_dec : EqDecision TaskOptions.
Proof. solve_decision. Defined.

#[global] Instance Task_eq_dec : EqDecision Task.
Proof. solve_decision. Defined.

(** [VentaroEdgeComputing.processTaskLocally(task)].  The method assigns
    fields of the task object and never writes [this.tasks].  When the
    object is the one [submitTask] stored in [tasks] under its id, the
    assignment shows in that entry; otherwise it changes only the caller's
    object, which is no part of the node.  (Tasks are values here: the
    stored object is recognised by being equal to [task] in every
    field.) *)
Definition processTaskLocally (task : Task) : M unit :=
  queue ← gets (λ st, processingQueues st !! task_type task);
  match queue with
  | None => throw (UnknownTaskType (task_type task))
  | Some q =>
      let '(job, q') :=
        queue_add (task_data task)
          (getPriorityValue (priority (options task)))
          (default 0%N (delay (options task)))
          (timeout (options task)) q in
      modify (λ st, with_processingQueues
                      (<[task_type task := q']> (processingQueues st)) st) ;;
      let task' :=
        {| task_id := task_id task; task_type := task_type task;
           task_data := task_data task; options := options task;
           submittedBy := submittedBy task;
           status := "processing"; jobId := Some (job_id job) |} in
      modify (λ st, if decide (tasks st !! task_id task = Some task)
                    then with_tasks (<[task_id task := task']> (tasks st)) st
                    else st) ;;
      modify (λ st, with_emitted (emitted st ++ [taskStarted (task_id task)]) st)
  end.

(** [VentaroEdgeComputing.getNodeCapabilities()] *)
Definition getNodeCapabilities (st : EdgeNode) : Capabilities :=
  {| ai := aiModels st;
     processing := (map_to_list (processingQueues st)).*1;
     protocols := ["websocket"; "redis"; "http"];
     features := ["clustering"; "mesh-networking"; "real-time-processing"] |}.

(** ** The optimizer *)

(** [cluster.fork()]: the [cluster] module numbers the workers it forks. *)
Definition cluster_fork : M Worker :=
  id ← gets (λ st, (cluster_ids st + 1)%N);
  modify (with_cluster_ids id) ;;
  mret {| worker_id := id |}.

(** The entry [{ worker, tasks: 0, memory: 0, cpu: 0, startedAt }]. *)
Definition workerEntry (w : Worker) : WorkerInfo :=
  {| worker := w; worker_tasks := 0; worker_memory := 0; worker_cpu := 0 |}.

(** [worker.kill()] *)
Definition kill (w : Worker) : M unit :=
  modify (λ st, with_killed (killed st ++ [worker_id w]) st).

(** [EdgeOptimizer.optimizeResources()] *)
Definition optimizeResources : M unit :=
  enabled ← gets (λ st, cluster_enabled (config st));
  master ← gets isMaster;
  if enabled && master then
    avgCpuUsage ← gets (λ st, toQ (cpuUsage st));
    currentWorkers ← gets (λ st, OMap.size (workers st));
    maxWorkers ← gets cpus;
    if Qgtb avgCpuUsage 80 && (currentWorkers <? maxWorkers)%nat then
      w ← cluster_fork;
      modify (λ st, with_workers
                      (OMap.set (workers st) (worker_id w) (workerEntry w)) st)
    else if Qgtb 30 avgCpuUsage && (1 <? currentWorkers)%nat then
      ws ← gets (λ st, OMap.values (workers st));
      match ws with
      | [] => throw TypeError
      | workerToRemove :: _ =>
          kill (worker workerToRemove) ;;
          modify (λ st, with_workers
                          (OMap.delete (workers st)
                             (worker_id (worker workerToRemove))) st)
      end
    else mret ()
  else mret ().

(** The forking loop of [initializeCluster] in the master process. *)
Fixpoint forkWorkers (n : nat) : M unit :=
  match n with
  | O => mret ()
  | S n' =>
      w ← cluster_fork;
      modify (λ st, with_workers
                      (OMap.set (workers st) (worker_id w) (workerEntry w)) st) ;;
      forkWorkers n'
  end.

(** The handler of the cluster's [exit] event: forget the worker that died
    and fork a replacement. *)
Definition onWorkerExit (w : Worker) : M unit :=
  modify (λ st, with_workers (OMap.delete (workers st) (worker_id w)) st) ;;
  newWorker ← cluster_fork;
  modify (λ st, with_workers
                  (OMap.set (workers st) (worker_id newWorker)
                     (workerEntry newWorker)) st).

(** ** Configuration *)

(** The options the constructor reads; [None] is an absent option. *)
Record UserConfig : Type := {
  user_nodeId : option string;
  user_clusterEnabled : option bool;
  user_timeoutMs : option N;
  user_retryAttempts : option N
}.

(** [n || d] on an optional number: [undefined] and [0] give [d]. *)
Definition orN (n : option N) (d : N) : N :=
  match n with
  | Some v => if (v =? 0)%N then d else v
  | None => d
  end.

(** The [this.config] the constructor builds; [generated] is the id
    [`edge-${os.hostname()}-${Date.now()}`]. *)
Definition mkConfig (c : UserConfig) (generated : string) : Config :=
  {| nodeId := if JS.truthy_string (user_nodeId c)
               then default generated (user_nodeId c) else generated;
     cluster_enabled := negb (bool_decide (user_clusterEnabled c = Some false));
     timeoutMs := orN (user_timeoutMs c) 30000;
     retryAttempts := orN (user_retryAttempts c) 3 |}.

Definition queueTypes : list string :=
  [ "image-processing"; "video-processing"; "audio-processing";
    "text-processing"; "ai-inference"; "data-analysis";
    "real-time-processing" ].

(** The [defaultJobOptions] every queue is created with. *)
Record JobOptions : Type := {
  removeOnComplete : N;
  removeOnFail : N;
  attempts : N;
  backoff_type : string;
  backoff_delay : N
}.

Definition defaultJobOptions (cfg : Config) : JobOptions :=
  {| removeOnComplete := 100; removeOnFail := 50;
     attempts := retryAttempts cfg;
     backoff_type := "exponential"; backoff_delay := 2000 |}.

Definition emptyQueue : Queue :=
  {| waiting := []; delayed := []; jobCounter := 0 |}.

(** [VentaroEdgeComputing.initializeQueues()] *)
Definition initializeQueues : M unit :=
  modify (λ st, with_processingQueues
                  (foldl (λ m queueType, <[queueType := emptyQueue]> m)
                         (processingQueues st) queueTypes) st).

(** ** Liveness and capability *)

(** The nodes the balancer can reach: the local node and the connected
    mesh peers. *)
Definition isAlive (st : EdgeNode) (n : string) : bool :=
  bool_decide (n = nodeId (config st) ∨ n ∈ OMap.keys (meshClients st)).

(** The processing capability set a node advertises: the local node's
    [getNodeCapabilities().processing], a peer's published record. *)
Definition advertised (st : EdgeNode) (n : string) : list string :=
  if decide (n = nodeId (config st))
  then processing (getNodeCapabilities st)
  else match OMap.get (meshClients st) n with
       | Some c => processing (capabilities (node c))
       | None => []
       end.

(** Modelled from the spec: [listCandidates(taskType)] of the Node
    Registry, which the source does not have: the live nodes whose
    advertised capability set contains the task type. *)
Definition listCandidates (st : EdgeNode) (taskType : string) : list string :=
  filter (λ n, taskType ∈ advertised st n)
         (nodeId (config st) :: OMap.keys (meshClients st)).

(** ** The task queue adapter *)

Module TaskQueueAdapter.

(** What the adapter keeps for a queued task. *)
Record Entry : Type := {
  retryCount : N;
  backoffDelay : N
}.

Inductive AdapterEvent : Type :=
| taskFailed (taskId : string).

Record Store : Type := {
  queued : gmap string Entry;
  deadLetter : gmap string Entry;
  events : list AdapterEvent
}.

Section adapter.
Variable cfg : Config.
(** The cap on the backoff delay. *)
Variable maxDelay : N.

(** The retry budget and the base delay are the ones the queues are
    configured with. *)
Definition maxRetries : N := attempts (defaultJobOptions cfg).
Definition baseDelay : N := backoff_delay (defaultJobOptions cfg).

Definition backoff (retries : N) : N :=
  N.min maxDelay (baseDelay * 2 ^ retries).

(** Modelled from the spec: [enqueue(task)] of the Task Queue Adapter;
    the source hands the task to the queue library. *)
Definition enqueue (taskId : string) (s : Store) : Store :=
  {| queued := <[taskId := {| retryCount := 0; backoffDelay := 0 |}]> (queued s);
     deadLetter := deadLetter s;
     events := events s |}.

(** Modelled from the spec: [nack(taskId, reason)] of the Task Queue
    Adapter, with its dead-letter store and task-failed event; in the
    source the retries are the queue library's and the handler
    [handleTaskFailed] has no body.  [None] is [NotFoundError]. *)
Definition nack (taskId : string) (s : Store) : option Store :=
  match queued s !! taskId with
  | None => None
  | Some e =>
      let retries := (retryCount e + 1)%N in
      if (maxRetries <? retries)%N
      then Some {| queued := delete taskId (queued s);
                   deadLetter := <[taskId := {| retryCount := retries;
                                                backoffDelay := backoffDelay e |}]>
                                   (deadLetter s);
                   events := events s ++ [taskFailed taskId] |}
      else Some {| queued := <[taskId := {| retryCount := retries;
                                            backoffDelay := backoff retries |}]>
                               (queued s);
                   deadLetter := deadLetter s;
                   events := events s |}
  end.

(** [n] nacks in a row; [None] as soon as one of them fails. *)
Fixpoint nacks (n : nat) (taskId : string) (s : Store) : option Store :=
  match n with
  | O => Some s
  | S n' => nack taskId s ≫= nacks n' taskId
  end.

End adapter.
End TaskQueueAdapter.

(** ** Notions the statements use *)

(** The score [calculateNodeScore] returns for a node in a given state. *)
Definition scoreOf (st : EdgeNode) (n : string) (task : Task) : Q :=
  match (calculateNodeScore n task st).1 with
  | Returned s => s
  | Thrown _ => 0
  end.

(** What the loop of [selectOptimalNode] computes from the scores [f]. *)
Fixpoint pick (f : string → Q) (nodes : list string)
    (bestNode : string) (bestScore : Q) : string :=
  match nodes with
  | [] => bestNode
  | n :: rest =>
      if Qgtb (f n) bestScore
      then pick f rest n (f n)
      else pick f rest bestNode bestScore
  end.

(** The number of jobs waiting in the local queue of a task type. *)
Definition queueDepth (st : EdgeNode) (taskType : string) : nat :=
  match processingQueues st !! taskType with
  | Some q => length (waiting q)
  | None => 0
  end.

(** The local memory utilisation in percent. *)
Definition memoryPercent (st : EdgeNode) : Q :=
  (inject_Z (Z.of_N (memoryUsage st)) / inject_Z (Z.pos (totalmem st)) * 100)%Q.

(** What the [cluster] module guarantees about [workers]: every entry is
    filed under the id of its worker, the ids are distinct, and all were
    handed out by [cluster.fork()]. *)
Definition workers_wf (st : EdgeNode) : Prop :=
  NoDup (OMap.keys (workers st)) ∧
  Forall (λ e, worker_id (worker e.2) = e.1 ∧ (e.1 <= cluster_ids st)%N)
         (workers st).

(** ** Sample nodes and tasks *)

(** A task as [submitTask] builds it: status [pending], no job yet. *)
Definition sampleTask (id type : string) (affinity : option string) : Task :=
  {| task_id := id; task_type := type; task_data := "payload";
     options := {| priority := Some "normal"; timeout := 30000; retries := 3;
                   nodeAffinity := affinity; delay := None |};
     submittedBy := "edge-1"; status := "pending"; jobId := None |}.

(** A connected peer that published the given processing capabilities. *)
Definition peer (id : string) (caps : list string) : string * MeshClient :=
  (id, {| node := {| node_id := id;
                     capabilities :=
                       {| ai := []; processing := caps;
                          protocols := ["websocket"; "redis"; "http"];
                          features := ["clustering"; "mesh-networking";
                                       "real-time-processing"] |} |} |}).

(** The node [edge-1] on a machine with four cores and 100 units of
    memory, after [initializeQueues], with the given CPU usage, memory
    usage, peers, peer loads and submitted tasks. *)
Definition sampleNode (cpu : measure) (mem : N)
    (peers : list (string * MeshClient)) (loads : gmap string NodeLoad)
    (submitted : list Task) : EdgeNode :=
  (initializeQueues
     {| config := mkConfig {| user_nodeId := Some "edge-1";
                              user_clusterEnabled := None;
                              user_timeoutMs := None;
                              user_retryAttempts := None |} "edge-host-0";
        workers := []; processingQueues := ∅; aiModels := [];
        tasks := list_to_map ((λ t, (task_id t, t)) <$> submitted);
        meshClients := peers;
        cpuUsage := cpu; memoryUsage := mem; nodeLoads := loads;
        totalmem := 100; cpus := 4; isMaster := true; cluster_ids := 0;
        emitted := []; killed := []; scored := [] |}).2.

Definition load (c m q : N) : NodeLoad :=
  {| cpu := percent c; memory := percent m; queue := percent q |}.

(** The scenario of one local and one remote node with equal loads. *)
Definition scenarioNode : EdgeNode :=
  sampleNode (percent 10) 20 [peer "edge-2" queueTypes]
             {[ "edge-2" := load 10 20 0 ]} [].

Definition scenarioTask : Task := sampleTask "task-1" "image-processing" None.

(** A busy local node and two equally loaded peers, [edge-b] connected
    before [edge-a]. *)
Definition tiedPeersNode : EdgeNode :=
  sampleNode (percent 90) 0
             [peer "edge-b" queueTypes; peer "edge-a" queueTypes]
             {[ "edge-b" := load 10 20 0; "edge-a" := load 10 20 0 ]} [].

(** A task of a type no node has a queue for, submitted to a node without
    peers. *)
Definition quantumTask : Task := sampleTask "task-9" "quantum-processing" None.

Definition loneNode : EdgeNode := sampleNode (percent 10) 20 [] ∅ [quantumTask].

(** A node whose only peer, [edge-2], advertises [quantum-processing];
    the balancer holds no load entry for the peer. *)
Definition quantumPeerNode : EdgeNode :=
  sampleNode (percent 10) 20 [peer "edge-2" ["quantum-processing"]] ∅
             [quantumTask].

(** Tasks pinned to the connected peer [edge-2] and to [edge-9], a node
    that is not connected. *)
Definition pinnedTask : Task :=
  sampleTask "task-3" "image-processing" (Some "edge-2").

Definition strayTask : Task :=
  sampleTask "task-4" "image-processing" (Some "edge-9").

(** The sample node after the master forked two workers. *)
Definition twoWorkerNode : EdgeNode := (forkWorkers 2 scenarioNode).2.

(** The configuration of a node started without options, and an adapter
    store holding one freshly enqueued task. *)
Definition defaultConfig : Config :=
  mkConfig {| user_nodeId := None; user_clusterEnabled := None;
              user_timeoutMs := None; user_retryAttempts := None |}
           "edge-host-0".

Definition oneTaskStore : TaskQueueAdapter.Store :=
  TaskQueueAdapter.enqueue "task-1"
    {| TaskQueueAdapter.queued := ∅; TaskQueueAdapter.deadLetter := ∅;
       TaskQueueAdapter.events := [] |}.

(** ** Text helpers of the AI processor *)

Module AIProcessor.

(** The words of this section are words of ASCII characters: every
    character is one code unit below 128.  On these
    [String.prototype.toLowerCase] maps [A]..[Z] to [a]..[z], keeps every
    other character and keeps the length; on other words it follows the
    Unicode case mapping, which can change the number of code units, and
    the definitions below do not describe it. *)
Fixpoint isASCII (s : string) : bool :=
  match s with
  | EmptyString => true
  | String c rest => (Ascii.nat_of_ascii c <? 128)%nat && isASCII rest
  end.

(** [toLowerCase] on a word of ASCII characters. *)
Definition toLowerCase_char (c : Ascii.ascii) : Ascii.ascii :=
  let n := Ascii.nat_of_ascii c in
  if (65 <=? n)%nat && (n <=? 90)%nat then Ascii.ascii_of_nat (n + 32) else c.

Fixpoint toLowerCase (s : string) : string :=
  match s with
  | EmptyString => EmptyString
  | String c rest => String (toLowerCase_char c) (toLowerCase rest)
  end.

(** [s.includes(c)] for a single character [c]. *)
Fixpoint includes (s : string) (c : Ascii.ascii) : bool :=
  match s with
  | EmptyString => false
  | String d rest => Ascii.eqb d c || includes rest c
  end.

(** [s.endsWith(c)] for a single character [c]. *)
Fixpoint endsWith (s : string) (c : Ascii.ascii) : bool :=
  match s with
  | EmptyString => false
  | String d EmptyString => Ascii.eqb d c
  | String _ rest => endsWith rest c
  end.

Definition vowels : string := "aeiouy".

(** The [for] loop of [countSyllables]. *)
Fixpoint syllableLoop (word : string) (syllableCount : Z)
    (previousWasVowel : bool) : Z :=
  match word with
  | EmptyString => syllableCount
  | String c rest =>
      let isVowel := includes vowels c in
      let syllableCount :=
        if isVowel && negb previousWasVowel
        then (syllableCount + 1)%Z else syllableCount in
      syllableLoop rest syllableCount isVowel
  end.

(** [AIProcessor.countSyllables(word)], for a word of ASCII characters. *)
Definition countSyllables (word : string) : Z :=
  let word := toLowerCase word in
  if (String.length word <=? 3)%nat then 1%Z
  else
    let syllableCount := syllableLoop word 0 false in
    let syllableCount :=
      if endsWith word "e"%char then (syllableCount - 1)%Z else syllableCount in
    Z.max 1 syllableCount.

(** *** Batch processing *)

Section batchProcess.
Context {Item Result Err : Type}.

(** The outcome of the call [processor(item, index)] made after [k] failed
    attempts on that index: a result, or the error it throws. *)
Variable processor : Item → nat → nat → Result + Err.

(** The arrays [results] and [errors]; an index never assigned is a
    hole. *)
Record BatchOutput : Type := {
  results : gmap nat Result;
  errors : gmap nat Err
}.

(** The [while (attempts <= retries)] loop of [processItem]; it runs at
    most [retries + 1] times, which [remaining] counts down. *)
Fixpoint processItemLoop (remaining : nat) (item : Item) (index : nat)
    (attempts retries : Z) (o : BatchOutput) : BatchOutput :=
  match remaining with
  | O => o
  | S remaining' =>
      if (attempts <=? retries)%Z then
        match processor item index (Z.to_nat attempts) with
        | inl result =>
            {| results := <[index := result]> (results o); errors := errors o |}
        | inr error =>
            let attempts := (attempts + 1)%Z in
            if (retries <? attempts)%Z
            then processItemLoop remaining' item index attempts retries
                   {| results := results o;
                      errors := <[index := error]> (errors o) |}
            else processItemLoop remaining' item index attempts retries o
        end
      else o
  end.

Definition processItem (retries : Z) (item : Item) (index : nat)
    (o : BatchOutput) : BatchOutput :=
  processItemLoop (Z.to_nat (retries + 1)) item index 0 retries o.

(** [batch.map((item, batchIndex) => processItem(item, i + batchIndex))]
    awaited with [Promise.all]: every item of the batch is processed; the
    items write to distinct indices. *)
Fixpoint processBatch (retries : Z) (batch : list Item) (i : nat)
    (o : BatchOutput) : BatchOutput :=
  match batch with
  | [] => o
  | item :: rest => processBatch retries rest (S i) (processItem retries item i o)
  end.

(** The [for (let i = 0; i < items.length; i += concurrency)] loop;
    [None] when [fuel] iterations do not finish it. *)
Fixpoint batchLoop (fuel : nat) (items : list Item) (i concurrency : nat)
    (retries : Z) (o : BatchOutput) : option BatchOutput :=
  if (i <? length items)%nat then
    match fuel with
    | O => None
    | S fuel' =>
        let batch := take concurrency (drop i items) in
        batchLoop fuel' items (i + concurrency) concurrency retries
                  (processBatch retries batch i o)
    end
  else Some o.

(** [AIProcessor.batchProcess(items, processor, { concurrency, retries })] *)
Definition batchProcess (fuel : nat) (items : list Item)
    (concurrency : option nat) (retries : option Z) : option BatchOutput :=
  let concurrency := default 3%nat concurrency in
  let retries := default 2%Z retries in
  batchLoop fuel items 0 concurrency retries {| results := ∅; errors := ∅ |}.

(** What the attempts on one item come to: the first result, or the error
    of the last attempt. *)
Fixpoint firstOutcome (n : nat) (item : Item) (index : nat) (k : nat)
    : option (Result + Err) :=
  match n with
  | O => None
  | S n' =>
      match processor item index k with
      | inl result => Some (inl result)
      | inr error =>
          match n' with
          | O => Some (inr error)
          | S _ => firstOutcome n' item index (S k)
          end
      end
  end.

End batchProcess.

End AIProcessor.

(** ** Metrics, the model registry and the result cache *)

(** The counters of [this.metrics] that task processing updates. *)
Record Metrics : Type := {
  tasksProcessed : N;
  avgProcessingTime : Q;
  errors : N
}.

Definition initialMetrics : Metrics :=
  {| tasksProcessed := 0; avgProcessingTime := 0; errors := 0 |}.

(** [VentaroEdgeComputing.updateMetrics(processingTime)] *)
Definition updateMetrics (processingTime : Q) (m : Metrics) : Metrics :=
  let tasksProcessed := (tasksProcessed m + 1)%N in
  {| tasksProcessed := tasksProcessed;
     avgProcessingTime :=
       ((avgProcessingTime m * inject_Z (Z.of_N (tasksProcessed - 1))
         + processingTime) / inject_Z (Z.of_N tasksProcessed))%Q;
     errors := errors m |}.

(** The payload of a job: its own [type] property and the rest. *)
Record TaskData : Type := {
  data_type : option string;
  data_body : string
}.

(** The processing methods [processTask] dispatches to. *)
Inductive Processor : Type :=
| processImage | processVideo | processAudio | processText
| runInferenceTask | analyzeData | processRealTime.

(** The [switch (taskData.type)] of [processTask]. *)
Definition processorFor (type : option string) : option Processor :=
  match type with
  | None => None
  | Some t =>
      if String.eqb t "image-processing" then Some processImage
      else if String.eqb t "video-processing" then Some processVideo
      else if String.eqb t "audio-processing" then Some processAudio
      else if String.eqb t "text-processing" then Some processText
      else if String.eqb t "ai-inference" then Some runInferenceTask
      else if String.eqb t "data-analysis" then Some analyzeData
      else if String.eqb t "real-time-processing" then Some processRealTime
      else None
  end.

(** What [processTask] throws: its own error for an unknown type, or
    whatever the processing method threw. *)
Inductive ProcessError (Err : Type) : Type :=
| UnknownType (type : string)
| ProcessorError (e : Err).
Arguments UnknownType {Err} type.
Arguments ProcessorError {Err} e.

Section processTask.
Context {Result Err : Type}.
(** The outcome of awaiting a processing method on a payload. *)
Variable run : Processor → TaskData → Result + Err.

(** [VentaroEdgeComputing.processTask(taskData)]; [processingTime] is the
    difference of the two readings of [performance.now()]. *)
Definition processTask (taskData : TaskData) (processingTime : Q)
    (m : Metrics) : (Result + ProcessError Err) * Metrics :=
  let failed (e : ProcessError Err) :=
    (inr e, {| tasksProcessed := tasksProcessed m;
               avgProcessingTime := avgProcessingTime m;
               errors := (errors m + 1)%N |}) in
  match processorFor (data_type taskData) with
  | Some p =>
      match run p taskData with
      | inl result => (inl result, updateMetrics processingTime m)
      | inr e => failed (ProcessorError e)
      end
  | None => failed (UnknownType (JS.to_key (data_type taskData)))
  end.

(** The queue processor run on a list of payloads, one after the other. *)
Fixpoint processAll (jobs : list (TaskData * Q)) (m : Metrics) : Metrics :=
  match jobs with
  | [] => m
  | (taskData, processingTime) :: rest =>
      processAll rest (processTask taskData processingTime m).2
  end.

End processTask.

Module ModelRegistry.

(** An entry of [aiModels]: the fields the engine reads. [hasDispose] is
    whether [model.dispose] is there. *)
Record ModelInfo : Type := {
  model_type : string;
  hasDispose : bool;
  lastUsed : Z;
  usageCount : N
}.

Section registry.
Context {Input Output Err : Type}.

(** [aiModels], [modelCache] (a cached [undefined] is [None]),
    [metrics.inferenceCount], and the models disposed so far. *)
Record Registry : Type := {
  aiModels : list (string * ModelInfo);
  modelCache : list (string * option Output);
  inferenceCount : N;
  disposed : list string
}.

(** [VentaroEdgeComputing.cleanupModelCache()] *)
Definition cleanupModelCache (maxCacheSize : nat) (r : Registry) : Registry :=
  if (maxCacheSize <? OMap.size (modelCache r))%nat then
    let entries := modelCache r in
    let toRemove := take (length entries - maxCacheSize) entries in
    {| aiModels := aiModels r;
       modelCache := foldl (λ cache e, OMap.delete cache e.1) (modelCache r) toRemove;
       inferenceCount := inferenceCount r;
       disposed := disposed r |}
  else r.

(** The idle time after which an unused model is unloaded: 30 minutes. *)
Definition maxIdleTime : Z := 30 * 60 * 1000.

(** One step of the loop of [optimizeModels]. *)
Definition optimizeModel (now : Z) (r : Registry) (e : string * ModelInfo) : Registry :=
  let '(modelName, modelInfo) := e in
  if (maxIdleTime <? now - lastUsed modelInfo)%Z && (usageCount modelInfo =? 0)%N then
    {| aiModels := OMap.delete (aiModels r) modelName;
       modelCache := modelCache r;
       inferenceCount := inferenceCount r;
       disposed := if String.eqb (model_type modelInfo) "tensorflow"
                      && hasDispose modelInfo
                   then disposed r ++ [modelName] else disposed r |}
  else r.

(** [EdgeOptimizer.optimizeModels()] at the time [now]. *)
Definition optimizeModels (now : Z) (r : Registry) : Registry :=
  foldl (optimizeModel now) r (aiModels r).

(** [generateCacheKey(modelName, inputData)], an MD5 digest, and the
    prediction of a loaded model, which may throw. *)
Variable generateCacheKey : string → Input → string.
Variable predict : string → Input → Output + Err.

Inductive InferenceError : Type :=
| ModelNotFound (modelName : string)
| PredictionError (e : Err).

(** [VentaroEdgeComputing.runInference(taskData)] at the time [now].  A
    prediction is an array, which is truthy; a model of another type than
    [tensorflow] and [onnx] gives [undefined]. *)
Definition runInference (now : Z) (modelName : string) (inputData : Input)
    (r : Registry) : (option Output + InferenceError) * Registry :=
  match OMap.get (aiModels r) modelName with
  | None => (inr (ModelNotFound modelName), r)
  | Some modelInfo =>
      let cacheKey := generateCacheKey modelName inputData in
      match OMap.get (modelCache r) cacheKey with
      | Some (Some cachedResult) => (inl (Some cachedResult), r)
      | _ =>
          let outcome :=
            if String.eqb (model_type modelInfo) "tensorflow"
               || String.eqb (model_type modelInfo) "onnx"
            then match predict modelName inputData with
                 | inl result => inl (Some result)
                 | inr e => inr e
                 end
            else inl None in
          match outcome with
          | inr e => (inr (PredictionError e), r)
          | inl result =>
              (inl result,
               {| aiModels :=
                    OMap.set (aiModels r) modelName
                      {| model_type := model_type modelInfo;
                         hasDispose := hasDispose modelInfo;
                         lastUsed := now;
                         usageCount := usageCount modelInfo + 1 |};
                  modelCache := OMap.set (modelCache r) cacheKey result;
                  inferenceCount := (inferenceCount r + 1)%N;
                  disposed := disposed r |})
          end
      end
  end.

End registry.
End ModelRegistry.

(** ** The local address *)

(** An entry of [os.networkInterfaces()]. *)
Record NetworkInterface : Type := {
  family : string;
  internal : bool;
  address : string
}.

(** The inner loop of [getLocalIPAddress]. *)
Fixpoint firstExternalIPv4 (ifaces : list NetworkInterface) : option string :=
  match ifaces with
  | [] => None
  | iface :: rest =>
      if String.eqb (family iface) "IPv4" && negb (internal iface)
      then Some (address iface)
      else firstExternalIPv4 rest
  end.

(** [VentaroEdgeComputing.getLocalIPAddress()] on the interfaces by name. *)
Fixpoint getLocalIPAddress (interfaces : list (string * list NetworkInterface))
    : string :=
  match interfaces with
  | [] => "localhost"
  | (name, ifaces) :: rest =>
      match firstExternalIPv4 ifaces with
      | Some a => a
      | None => getLocalIPAddress rest
      end
  end.

(** ** Submitting tasks, the mesh and the cluster *)

Definition with_meshClients (c : list (string * MeshClient)) (st : EdgeNode) : EdgeNode :=
  {| config := config st; workers := workers st;
     processingQueues := processingQueues st; aiModels := aiModels st;
     tasks := tasks st; meshClients := c;
     cpuUsage := cpuUsage st; memoryUsage := memoryUsage st;
     nodeLoads := nodeLoads st; totalmem := totalmem st; cpus := cpus st;
     isMaster := isMaster st; cluster_ids := cluster_ids st;
     emitted := emitted st; killed := killed st; scored := scored st |}.

(** The [options] argument of [submitTask]; [None] is a property the
    caller did not pass. *)
Record SubmitOptions : Type := {
  opt_priority : option string;
  opt_timeout : option N;
  opt_retries : option N;
  opt_nodeAffinity : option string;
  opt_delay : option N
}.

(** The [options] object of a new task: the defaults, then [...options],
    which overrides them with every property the caller passed. *)
Definition taskOptions (cfg : Config) (o : SubmitOptions) : TaskOptions :=
  let defaults :=
    {| priority := if JS.truthy_string (opt_priority o)
                   then opt_priority o else Some "normal";
       timeout := orN (opt_timeout o) (timeoutMs cfg);
       retries := orN (opt_retries o) (retryAttempts cfg);
       nodeAffinity := opt_nodeAffinity o;
       delay := None |} in
  {| priority := match opt_priority o with
                 | Some p => Some p | None => priority defaults end;
     timeout := default (timeout defaults) (opt_timeout o);
     retries := default (retries defaults) (opt_retries o);
     nodeAffinity := match opt_nodeAffinity o with
                     | Some a => Some a | None => nodeAffinity defaults end;
     delay := match opt_delay o with
              | Some d => Some d | None => delay defaults end |}.

Section submitTask.
(** [sendTaskToNode(task, targetNode)], which the engine calls for a
    remote target. *)
Variable sendTaskToNode : Task → string → M unit.

(** [VentaroEdgeComputing.submitTask(taskType, taskData, options)];
    [taskId] is the id [generateTaskId()] makes up. *)
Definition submitTask (taskId taskType taskData : string)
    (o : SubmitOptions) : M string :=
  cfg ← gets config;
  let task :=
    {| task_id := taskId; task_type := taskType; task_data := taskData;
       options := taskOptions cfg o;
       submittedBy := nodeId cfg; status := "pending"; jobId := None |} in
  modify (λ st, with_tasks (<[taskId := task]> (tasks st)) st) ;;
  targetNode ← scheduleTask task;
  (if decide (targetNode = nodeId cfg)
   then processTaskLocally task
   else sendTaskToNode task targetNode) ;;
  mret taskId.

End submitTask.

(** The handlers [connectToEdgeNode] installs on the socket to a node:
    [open] files the node under its id, [close] removes it. *)
Definition onMeshOpen (n : NodeInfo) : M unit :=
  modify (λ st, with_meshClients
                  (OMap.set (meshClients st) (node_id n) {| node := n |}) st).

Definition onMeshClose (n : NodeInfo) : M unit :=
  modify (λ st, with_meshClients (OMap.delete (meshClients st) (node_id n)) st).

(** [discoverEdgeNodes()]: of the nodes published in the registry, the
    ones [connectToEdgeNode] is called for. *)
Definition discoverEdgeNodes (published : list NodeInfo) (st : EdgeNode)
    : list NodeInfo :=
  filter (λ n, node_id n ≠ nodeId (config st)) published.

(** What happens on the sockets afterwards. *)
Inductive MeshEvent : Type :=
| Opened (n : NodeInfo)
| Closed (n : NodeInfo).

Definition onMeshEvent (e : MeshEvent) : M unit :=
  match e with
  | Opened n => onMeshOpen n
  | Closed n => onMeshClose n
  end.

Fixpoint onMeshEvents (es : list MeshEvent) : M unit :=
  match es with
  | [] => mret ()
  | e :: rest => onMeshEvent e ;; onMeshEvents rest
  end.

Definition eventNode (e : MeshEvent) : NodeInfo :=
  match e with Opened n => n | Closed n => n end.

(** [VentaroEdgeComputing.initializeCluster()]; [clusterWorkers] is
    [config.cluster.workers].  In a worker process it only installs a
    message handler. *)
Definition initializeCluster (clusterWorkers : nat) : M unit :=
  master ← gets isMaster;
  if master : bool then forkWorkers clusterWorkers else mret ().

(** ** Notions the further statements use *)

(** What [results] and [errors] hold at an index, and how the outcome of
    the attempts on an item changes it. *)
Definition slot {Result Err : Type} (o : @AIProcessor.BatchOutput Result Err)
    (i : nat) : option Result * option Err :=
  (AIProcessor.results o !! i, AIProcessor.errors o !! i).

Definition settle {Result Err : Type} (outcome : option (Result + Err))
    (s : option Result * option Err) : option Result * option Err :=
  match outcome with
  | Some (inl result) => (Some result, s.2)
  | Some (inr error) => (s.1, Some error)
  | None => s
  end.

(** A sample processor: the item [n] fails [n] times, then gives [2 * n]. *)
Definition flakyProcessor (item index k : nat) : nat + string :=
  if (k <? item)%nat then inr "failed" else inl (2 * item)%nat.

(** The sum of a list of numbers. *)
Definition Qsum (l : list Q) : Q := foldr Qplus 0%Q l.

(** Whether a payload is processed without error, and the times of the
    payloads that are. *)
Definition succeeds {Result Err : Type} (run : Processor → TaskData → Result + Err)
    (taskData : TaskData) : bool :=
  match processorFor (data_type taskData) with
  | Some p => match run p taskData with inl _ => true | inr _ => false end
  | None => false
  end.

Definition successTimes {Result Err : Type}
    (run : Processor → TaskData → Result + Err)
    (jobs : list (TaskData * Q)) : list Q :=
  (filter (λ job, succeeds run job.1 = true) jobs).*2.

(** Whether [optimizeModels] unloads a model at the time [now]: idle for
    more than [maxIdleTime] and never used. *)
Definition idleUnused (now : Z) (info : ModelRegistry.ModelInfo) : bool :=
  (ModelRegistry.maxIdleTime <? now - ModelRegistry.lastUsed info)%Z
  && (ModelRegistry.usageCount info =? 0)%N.

(** Whether unloading a model disposes it. *)
Definition disposable (info : ModelRegistry.ModelInfo) : bool :=
  String.eqb (ModelRegistry.model_type info) "tensorflow"
  && ModelRegistry.hasDispose info.

(** A registry with one TensorFlow model, loaded at time 0 and not used
    yet, and an empty cache; a sample prediction and cache key. *)
Definition sampleRegistry : @ModelRegistry.Registry (list Z) :=
  {| ModelRegistry.aiModels :=
       [("classifier",
         {| ModelRegistry.model_type := "tensorflow";
            ModelRegistry.hasDispose := true;
            ModelRegistry.lastUsed := 0;
            ModelRegistry.usageCount := 0 |})];
     ModelRegistry.modelCache := [];
     ModelRegistry.inferenceCount := 0;
     ModelRegistry.disposed := [] |}.

Definition sampleCacheKey (modelName : string) (input : list Z) : string :=
  modelName +:+ ":" +:+ String.concat "," ((λ _, "x") <$> input).

Definition samplePredict (modelName : string) (input : list Z)
    : list Z + string :=
  inl (Z.succ <$> input).

(** A cache of three results, oldest first. *)
Definition sampleCacheRegistry : @ModelRegistry.Registry (list Z) :=
  {| ModelRegistry.aiModels := [];
     ModelRegistry.modelCache :=
       [("k1", Some [1%Z]); ("k2", Some [2%Z]); ("k3", Some [3%Z])];
     ModelRegistry.inferenceCount := 3;
     ModelRegistry.disposed := [] |}.

(** Whether an interface is an IPv4 interface that is not internal. *)
Definition externalIPv4 (iface : NetworkInterface) : bool :=
  String.eqb (family iface) "IPv4" && negb (internal iface).

(** A machine with a loopback and an Ethernet interface. *)
Definition sampleInterfaces : list (string * list NetworkInterface) :=
  [("lo", [{| family := "IPv4"; internal := true; address := "127.0.0.1" |};
           {| family := "IPv6"; internal := true; address := "::1" |}]);
   ("eth0", [{| family := "IPv6"; internal := false; address := "fe80::1" |};
             {| family := "IPv4"; internal := false; address := "10.0.0.7" |}])].

(** The record a peer publishes, and the sample node with the peers
    [edge-2] and [edge-3] connected. *)
Definition peerInfo (id : string) : NodeInfo := (peer id queueTypes).2.(node).

Definition meshedNode : EdgeNode :=
  sampleNode (percent 10) 20
             [peer "edge-2" queueTypes; peer "edge-3" queueTypes] ∅ [].

(** * Properties *)

(** ** Numbers and maps *)

Lemma toQ_nonneg (m : measure) : (0 <= toQ m)%Q.
Proof. unfold toQ, Qle; simpl; lia. Qed.

Lemma Qgtb_true (a b : Q) : Qgtb a b = true <-> (b < a)%Q.
Proof.
  unfold Qgtb. rewrite negb_true_iff, <- not_true_iff_false, Qle_bool_iff.
  split; [apply Qnot_le_lt | apply Qlt_not_le].
Qed.

Lemma Qgtb_false (a b : Q) : Qgtb a b = false <-> (a <= b)%Q.
Proof. unfold Qgtb. rewrite negb_false_iff. apply Qle_bool_iff. Qed.

Section ordered_map_facts.
Context {K V : Type} `{EqDecision K}.
Implicit Types (m : list (K * V)) (k : K) (v : V).

Lemma omap_set_fresh m k v :
  k ∉ OMap.keys m → OMap.set m k v = m ++ [(k, v)].
Proof.
  unfold OMap.keys. induction m as [|[k' v'] m IH]; csimpl; [done|].
  intros Hk. apply not_elem_of_cons in Hk as [Hne Hk].
  case_decide; [congruence|]. by rewrite IH.
Qed.

Lemma omap_delete_fresh m k :
  k ∉ OMap.keys m → OMap.delete m k = m.
Proof.
  unfold OMap.keys, OMap.delete. induction m as [|[k' v'] m IH]; csimpl; [done|].
  intros Hk. apply not_elem_of_cons in Hk as [Hne Hk].
  rewrite filter_cons_True by (simpl; congruence). by rewrite IH.
Qed.

Lemma omap_delete_head m k v :
  k ∉ OMap.keys m → OMap.delete ((k, v) :: m) k = m.
Proof.
  intros Hk. unfold OMap.delete. rewrite filter_cons_False by (simpl; tauto).
  by apply omap_delete_fresh.
Qed.

End ordered_map_facts.

(** ** Running the methods *)

Lemma bind_run {A B : Type} (m : M A) (f : A → M B) (st : EdgeNode) :
  (m ≫= f) st =
  match m st with
  | (Returned a, st') => f a st'
  | (Thrown e, st') => (Thrown e, st')
  end.
Proof. reflexivity. Qed.

Lemma memoryPercent_nonneg (st : EdgeNode) : (0 <= memoryPercent st)%Q.
Proof.
  unfold memoryPercent, Qdiv.
  apply Qmult_le_0_compat; [|discriminate].
  apply Qmult_le_0_compat.
  - unfold Qle; simpl; lia.
  - apply Qinv_le_0_compat. unfold Qle; simpl; lia.
Qed.

(** One call of the scorer returns the score and is recorded. *)
Lemma calculateNodeScore_run (n : string) (t : Task) (st : EdgeNode) :
  calculateNodeScore n t st =
  (Returned (scoreOf st n t), with_scored (scored st ++ [n]) st).
Proof.
  unfold scoreOf, calculateNodeScore.
  repeat (rewrite bind_run; simpl).
  destruct (decide (n = nodeId (config st))) as [->|Hn].
  - repeat (rewrite bind_run; simpl).
    destruct (processingQueues st !! task_type t); reflexivity.
  - reflexivity.
Qed.

(** The score of the local node. *)
Lemma scoreOf_local (st : EdgeNode) (t : Task) :
  (scoreOf st (nodeId (config st)) t ==
   Qmax 0 (100 - toQ (cpuUsage st) - memoryPercent st
           - inject_Z (Z.of_nat (queueDepth st (task_type t)))))%Q.
Proof.
  unfold scoreOf, calculateNodeScore, queueDepth, memoryPercent.
  repeat (rewrite bind_run; simpl).
  rewrite decide_True by done.
  repeat (rewrite bind_run; simpl).
  destruct (processingQueues st !! task_type t); simpl; [reflexivity|].
  apply Q.max_compat; [reflexivity|].
  change (inject_Z 0) with 0%Q. ring.
Qed.

(** The score of a remote node. *)
Lemma scoreOf_remote (st : EdgeNode) (n : string) (t : Task) :
  n ≠ nodeId (config st) →
  scoreOf st n t =
  let nodeLoad := default defaultLoad (nodeLoads st !! n) in
  Qmax 0 (100 - toQ (cpu nodeLoad) - toQ (memory nodeLoad)
          - toQ (queue nodeLoad) - 10).
Proof.
  intros Hn. unfold scoreOf, calculateNodeScore.
  repeat (rewrite bind_run; simpl).
  rewrite decide_False by done. reflexivity.
Qed.

(** The ghost record of scorer calls does not influence a score. *)
Lemma scoreOf_with_scored (l : list string) (st : EdgeNode) (n : string) (t : Task) :
  scoreOf (with_scored l st) n t = scoreOf st n t.
Proof.
  unfold scoreOf, calculateNodeScore.
  repeat (rewrite bind_run; simpl).
  destruct (decide (n = nodeId (config st))); [|reflexivity].
  repeat (rewrite bind_run; simpl).
  destruct (processingQueues st !! task_type t); reflexivity.
Qed.

Lemma scoreOf_range (st : EdgeNode) (n : string) (t : Task) :
  (0 <= scoreOf st n t <= 100)%Q.
Proof.
  destruct (decide (n = nodeId (config st))) as [->|Hn].
  - rewrite scoreOf_local. split; [apply Q.le_max_l|].
    apply Q.max_lub; [discriminate|].
    pose proof (toQ_nonneg (cpuUsage st)).
    pose proof (memoryPercent_nonneg st).
    assert (0 <= inject_Z (Z.of_nat (queueDepth st (task_type t))))%Q
      by (unfold Qle; simpl; lia).
    lra.
  - rewrite scoreOf_remote by done. simpl. split; [apply Q.le_max_l|].
    apply Q.max_lub; [discriminate|].
    pose proof (toQ_nonneg (cpu (default defaultLoad (nodeLoads st !! n)))).
    pose proof (toQ_nonneg (memory (default defaultLoad (nodeLoads st !! n)))).
    pose proof (toQ_nonneg (queue (default defaultLoad (nodeLoads st !! n)))).
    lra.
Qed.

(** ** The selection loop *)

Lemma pick_ext (f g : string → Q) (nodes : list string) (b : string) (s : Q) :
  (∀ n, f n = g n) → pick f nodes b s = pick g nodes b s.
Proof.
  intros Hfg. revert b s. induction nodes as [|n rest IH]; intros b s; simpl.
  - reflexivity.
  - rewrite Hfg. destruct (Qgtb (g n) s); apply IH.
Qed.

Lemma selectLoop_run (t : Task) (nodes : list string) (b : string) (s : Q)
    (st : EdgeNode) :
  selectLoop t nodes b s st =
  (Returned (pick (λ n, scoreOf st n t) nodes b s),
   with_scored (scored st ++ nodes) st).
Proof.
  revert b s st. induction nodes as [|n rest IH]; intros b s st; simpl.
  - rewrite app_nil_r. by destruct st.
  - rewrite bind_run, calculateNodeScore_run.
    assert (Hst : ∀ b' s',
      selectLoop t rest b' s' (with_scored (scored st ++ [n]) st) =
      (Returned (pick (λ m, scoreOf st m t) rest b' s'),
       with_scored (scored st ++ n :: rest) st)).
    { intros b' s'. rewrite IH. simpl. rewrite <- app_assoc. simpl.
      unfold with_scored at 2. simpl. f_equal. f_equal.
      apply pick_ext. intros m. apply scoreOf_with_scored. }
    destruct (Qgtb (scoreOf st n t) s); apply Hst.
Qed.

(** [selectOptimalNode] scores the local node, then every connected peer
    in the order of [meshClients], then the local node again. *)
Lemma selectOptimalNode_run (t : Task) (st : EdgeNode) :
  let local := nodeId (config st) in
  let meshKeys := OMap.keys (meshClients st) in
  selectOptimalNode t st =
  (Returned (pick (λ n, scoreOf st n t) (meshKeys ++ [local]) local
                  (scoreOf st local t)),
   with_scored (scored st ++ local :: meshKeys ++ [local]) st).
Proof.
  simpl. unfold selectOptimalNode.
  repeat (rewrite bind_run; simpl).
  rewrite calculateNodeScore_run, selectLoop_run. simpl.
  unfold with_scored at 2. simpl. rewrite <- app_assoc. simpl.
  f_equal. f_equal. apply pick_ext. intros m. apply scoreOf_with_scored.
Qed.

Section pick_facts.
Variable f : string → Q.

Lemma pick_elem_of (nodes : list string) (b : string) (s : Q) :
  pick f nodes b s ∈ b :: nodes.
Proof.
  revert b s. induction nodes as [|n rest IH]; intros b s; simpl.
  - apply list_elem_of_here.
  - destruct (Qgtb (f n) s).
    + apply list_elem_of_further, IH.
    + specialize (IH b s). apply elem_of_cons in IH as [->|IH].
      * apply list_elem_of_here.
      * by do 2 apply list_elem_of_further.
Qed.

(** The loop keeps the current best unless a later node scores strictly
    higher; the node it ends with is the first one that attains the
    maximum. *)
Lemma pick_first_max (nodes : list string) (b : string) :
  let r := pick f nodes b (f b) in
  (r = b ∧ ∀ n, n ∈ nodes → (f n <= f b)%Q) ∨
  ((f b < f r)%Q ∧
   ∃ pre post, nodes = pre ++ r :: post ∧
     (∀ n, n ∈ pre → (f n < f r)%Q) ∧ (∀ n, n ∈ post → (f n <= f r)%Q)).
Proof.
  simpl. revert b. induction nodes as [|n rest IH]; intros b; simpl.
  - left. split; [done|]. intros n Hn. by apply elem_of_nil in Hn.
  - destruct (Qgtb (f n) (f b)) eqn:Hgt.
    + apply Qgtb_true in Hgt. right.
      destruct (IH n) as [[Hr Hle]|(Hlt & pre & post & Hsplit & Hpre & Hpost)].
      * rewrite Hr. split; [done|]. exists [], rest. split; [done|].
        split; [|done]. intros m Hm. by apply elem_of_nil in Hm.
      * split; [by eapply Qlt_trans|].
        exists (n :: pre), post. split; [exact (f_equal (cons n) Hsplit)|].
        split; [|done]. intros m Hm. apply elem_of_cons in Hm as [->|Hm]; auto.
    + apply Qgtb_false in Hgt.
      destruct (IH b) as [[Hr Hle]|(Hlt & pre & post & Hsplit & Hpre & Hpost)].
      * left. split; [done|]. intros m Hm.
        apply elem_of_cons in Hm as [->|Hm]; auto.
      * right. split; [done|].
        exists (n :: pre), post. split; [exact (f_equal (cons n) Hsplit)|].
        split; [|done]. intros m Hm. apply elem_of_cons in Hm as [->|Hm]; auto.
        by eapply Qle_lt_trans.
Qed.

(** The node the loop ends with has a maximal score. *)
Lemma pick_maximal (nodes : list string) (b : string) (n : string) :
  n ∈ b :: nodes → (f n <= f (pick f nodes b (f b)))%Q.
Proof.
  intros Hn.
  destruct (pick_first_max nodes b)
    as [[Hr Hle]|(Hlt & pre & post & Hsplit & Hpre & Hpost)].
  - rewrite Hr. apply elem_of_cons in Hn as [->|Hn]; [apply Qle_refl|auto].
  - apply elem_of_cons in Hn as [->|Hn]; [by apply Qlt_le_weak|].
    rewrite Hsplit in Hn. apply elem_of_app in Hn as [Hn|Hn].
    + by apply Qlt_le_weak, Hpre.
    + apply elem_of_cons in Hn as [->|Hn]; [apply Qle_refl|auto].
Qed.

(** Scoring the first node once more at the end changes nothing. *)
Lemma pick_snoc_first (nodes : list string) (b : string) :
  pick f (nodes ++ [b]) b (f b) = pick f nodes b (f b).
Proof.
  assert (Hgen : ∀ c s, (f b <= s)%Q →
            pick f (nodes ++ [b]) c s = pick f nodes c s).
  { induction nodes as [|n rest IH]; intros c s Hs; simpl.
    - apply Qgtb_false in Hs. by rewrite Hs.
    - destruct (Qgtb (f n) s) eqn:Hgt.
      + apply IH. apply Qgtb_true in Hgt. apply Qlt_le_weak.
        by eapply Qle_lt_trans.
      + by apply IH. }
  apply Hgen, Qle_refl.
Qed.

End pick_facts.

(** ** Priorities *)

Lemma getPriorityValue_table :
  getPriorityValue (Some "low") = JS.Num 1 ∧
  getPriorityValue (Some "normal") = JS.Num 5 ∧
  getPriorityValue (Some "high") = JS.Num 10 ∧
  getPriorityValue (Some "critical") = JS.Num 20 ∧
  getPriorityValue None = JS.Num 5.
Proof. repeat split; vm_compute; reflexivity. Qed.

(** A string that is neither one of the four priorities nor the name of a
    member of [Object.prototype] gets the weight of [normal]. *)
Lemma getPriorityValue_default (p : string) :
  p ∉ ["low"; "normal"; "high"; "critical"] →
  p ∉ JS.Object_prototype →
  getPriorityValue (Some p) = JS.Num 5.
Proof.
  intros Hp Hproto.
  repeat (apply not_elem_of_cons in Hp as [? Hp]).
  assert (Hown : priorities !! p = None).
  { unfold priorities. rewrite !lookup_insert_ne by done. by apply lookup_singleton_ne. }
  unfold getPriorityValue, JS.get. change (JS.to_key (Some p)) with p.
  rewrite Hown. by rewrite decide_False.
Qed.

(** C10 (the code departs from the claim). The claim: [low], [normal],
    [high], [critical] weigh 1, 5, 10, 20, and every other priority string
    weighs 5.  The table is as claimed, but [priorities[priority] || 5]
    also finds what the object literal inherits: for the priority string
    [constructor], which is none of the four, [getPriorityValue] returns
    the inherited [Object] function and not 5. *)
Theorem getPriorityValue_inherited_member :
  ("constructor" ∉ ["low"; "normal"; "high"; "critical"]) ∧
  getPriorityValue (Some "constructor") = JS.Inherited "constructor" ∧
  getPriorityValue (Some "constructor") ≠ JS.Num 5.
Proof.
  split; [|split].
  - intros H. repeat (apply elem_of_cons in H as [H|H]; [discriminate H|]).
    by apply elem_of_nil in H.
  - vm_compute. reflexivity.
  - vm_compute. discriminate.
Qed.

(** ** The load score *)

(** C4. For every node and task, [calculateNodeScore] returns a score in
    the closed interval from 0 to 100, so never a negative one, and it is
    deterministic: the call leaves the node snapshot as it is (only the
    call is recorded), and calling again gives the same score. *)
Theorem calculateNodeScore_bounded_deterministic
    (st : EdgeNode) (n : string) (t : Task) :
  ∃ s : Q,
    calculateNodeScore n t st = (Returned s, with_scored (scored st ++ [n]) st) ∧
    (0 <= s <= 100)%Q ∧
    (calculateNodeScore n t (calculateNodeScore n t st).2).1 = Returned s.
Proof.
  exists (scoreOf st n t). split; [apply calculateNodeScore_run|].
  split; [apply scoreOf_range|].
  rewrite !calculateNodeScore_run. simpl.
  by rewrite scoreOf_with_scored.
Qed.

(** C5. A local node [A] with CPU 10 %, memory 20 % and no job waiting for
    the task's type scores 70; a remote node [B] with the same CPU 10 %,
    memory 20 % and queue 0 scores 60, the network penalty of 10 lower;
    with [B] the only peer, [selectOptimalNode] selects [A]. *)
Theorem local_70_remote_60_selects_local
    (st : EdgeNode) (t : Task) (B : string) (l : NodeLoad) :
  let A := nodeId (config st) in
  B ≠ A →
  OMap.keys (meshClients st) = [B] →
  (toQ (cpuUsage st) == 10)%Q →
  (memoryPercent st == 20)%Q →
  queueDepth st (task_type t) = 0%nat →
  nodeLoads st !! B = Some l →
  (toQ (cpu l) == 10)%Q → (toQ (memory l) == 20)%Q → (toQ (queue l) == 0)%Q →
  (scoreOf st A t == 70)%Q ∧ (scoreOf st B t == 60)%Q ∧
  (selectOptimalNode t st).1 = Returned A.
Proof.
  intros A HB Hmesh Hcpu Hmem Hdepth Hload Hlc Hlm Hlq.
  assert (HA : (scoreOf st A t == 70)%Q).
  { unfold A. rewrite scoreOf_local, Hdepth, Hcpu, Hmem. reflexivity. }
  assert (HsB : (scoreOf st B t == 60)%Q).
  { rewrite scoreOf_remote by done. rewrite Hload. simpl.
    rewrite Hlc, Hlm, Hlq. reflexivity. }
  split; [done|]. split; [done|].
  rewrite selectOptimalNode_run. simpl. fold A. rewrite Hmesh.
  rewrite (pick_snoc_first (λ n, scoreOf st n t)). simpl.
  assert (Hle : Qgtb (scoreOf st B t) (scoreOf st A t) = false).
  { apply Qgtb_false. rewrite HA, HsB. discriminate. }
  by rewrite Hle.
Qed.

Lemma local_70_remote_60_selects_local_witness :
  (scoreOf scenarioNode "edge-1" scenarioTask == 70)%Q ∧
  (scoreOf scenarioNode "edge-2" scenarioTask == 60)%Q ∧
  (selectOptimalNode scenarioTask scenarioNode).1 = Returned "edge-1".
Proof.
  apply (local_70_remote_60_selects_local
           scenarioNode scenarioTask "edge-2" (load 10 20 0));
    vm_compute; congruence.
Defined.

(** ** Ties *)

(** C6 (as stated, refuted). Were ties among remote nodes broken by the
    lexicographically lowest id, a selected peer would be no greater than
    any peer with the same score.  With the local node busy (score 10) and
    the peers [edge-b] and [edge-a] both at score 60, the peer connected
    first, [edge-b], is selected. *)
Lemma tie_break_not_lexicographic :
  ¬ (∀ (st : EdgeNode) (t : Task) (r n : string),
       (selectOptimalNode t st).1 = Returned r →
       r ≠ nodeId (config st) →
       n ∈ OMap.keys (meshClients st) →
       (scoreOf st n t == scoreOf st r t)%Q →
       String.leb r n = true).
Proof.
  intros H.
  specialize (H tiedPeersNode scenarioTask "edge-b" "edge-a").
  assert (Hleb : String.leb "edge-b" "edge-a" = false) by (vm_compute; reflexivity).
  rewrite H in Hleb; [discriminate| | | |].
  - vm_compute. reflexivity.
  - vm_compute. congruence.
  - vm_compute. apply list_elem_of_further, list_elem_of_here.
  - vm_compute. reflexivity.
Qed.

(** Recording scorer calls changes neither the peers nor the scores, so
    the selection made afterwards is the same. *)
Lemma selectOptimalNode_after_scored (l : list string) (t : Task) (st : EdgeNode) :
  (selectOptimalNode t (with_scored l st)).1 = (selectOptimalNode t st).1.
Proof.
  rewrite !selectOptimalNode_run. simpl. f_equal.
  rewrite scoreOf_with_scored. apply pick_ext. intros m.
  apply scoreOf_with_scored.
Qed.

(** A run of [selectOptimalNode] always shows in the record of scorer
    calls. *)
Lemma selectOptimalNode_calls_scorer (t : Task) (st : EdgeNode) :
  scored (selectOptimalNode t st).2 ≠ scored st.
Proof.
  rewrite selectOptimalNode_run. simpl. intros Heq.
  apply (f_equal length) in Heq. rewrite length_app in Heq. simpl in Heq. lia.
Qed.

(** The local node is selected whenever no peer scores strictly higher. *)
Lemma selectOptimalNode_prefers_local (t : Task) (st : EdgeNode) :
  (∀ n, n ∈ OMap.keys (meshClients st) →
        (scoreOf st n t <= scoreOf st (nodeId (config st)) t)%Q) →
  (selectOptimalNode t st).1 = Returned (nodeId (config st)).
Proof.
  intros Hle. rewrite selectOptimalNode_run. simpl. f_equal.
  rewrite (pick_snoc_first (λ n, scoreOf st n t)).
  destruct (pick_first_max (λ n, scoreOf st n t)
              (OMap.keys (meshClients st)) (nodeId (config st)))
    as [[Hr _]|(Hlt & pre & post & Hsplit & _ & _)]; [done|].
  exfalso. apply (Qlt_not_le _ _ Hlt), Hle.
  rewrite Hsplit at 2. apply elem_of_app. right. apply list_elem_of_here.
Qed.

(** Nothing in the source fills [nodeLoads].  While it is empty every peer
    is given the default load and scores 0, so the local node is
    selected. *)
Lemma selectOptimalNode_without_loads (t : Task) (st : EdgeNode) :
  nodeLoads st = ∅ →
  (selectOptimalNode t st).1 = Returned (nodeId (config st)).
Proof.
  intros Hloads. apply selectOptimalNode_prefers_local. intros n _.
  destruct (decide (n = nodeId (config st))) as [->|Hn]; [apply Qle_refl|].
  rewrite (scoreOf_remote st n t Hn), Hloads, lookup_empty. simpl.
  eapply Qle_trans; [|apply scoreOf_range]. vm_compute. discriminate.
Qed.

(** C6 (amended). [selectOptimalNode] returns a node of maximal score.
    When the local node attains the maximum it is the one returned, tied
    or not; otherwise the peer returned is, among the peers attaining the
    maximum, the first one in the insertion order of [meshClients] (every
    peer before it scores strictly less), whatever the ids.  Calling again
    on the same candidates returns the same node. *)
Theorem selectOptimalNode_tie_break (st : EdgeNode) (t : Task) :
  let local := nodeId (config st) in
  let meshKeys := OMap.keys (meshClients st) in
  let score := λ n, scoreOf st n t in
  ∃ (r : string) (st' : EdgeNode),
    selectOptimalNode t st = (Returned r, st') ∧
    (∀ n, n ∈ local :: meshKeys → (score n <= score r)%Q) ∧
    ((∀ n, n ∈ meshKeys → (score n <= score local)%Q) → r = local) ∧
    (¬ (∀ n, n ∈ meshKeys → (score n <= score local)%Q) →
       ∃ pre post, meshKeys = pre ++ r :: post ∧
                   ∀ n, n ∈ pre → (score n < score r)%Q) ∧
    (selectOptimalNode t st').1 = Returned r.
Proof.
  intros local meshKeys score.
  pose proof (selectOptimalNode_run t st) as Hrun. simpl in Hrun.
  fold local meshKeys score in Hrun.
  rewrite (pick_snoc_first score) in Hrun.
  eexists _, _. split; [exact Hrun|].
  split; [|split; [|split]].
  - intros n Hn. by apply pick_maximal.
  - intros Hle. pose proof (selectOptimalNode_prefers_local t st Hle) as Hlocal.
    rewrite Hrun in Hlocal. simpl in Hlocal. by injection Hlocal.
  - intros Hnle.
    destruct (pick_first_max score meshKeys local)
      as [[_ Hle]|(_ & pre & post & Hsplit & Hpre & _)]; [done|].
    by exists pre, post.
  - rewrite selectOptimalNode_after_scored, selectOptimalNode_run. simpl.
    fold local meshKeys score. by rewrite (pick_snoc_first score).
Qed.

(** ** The scheduler *)

(** A task pinned to a node is scheduled on it, and nothing else happens. *)
Lemma scheduleTask_affinity (st : EdgeNode) (t : Task) (a : string) :
  nodeAffinity (options t) = Some a → a ≠ "" →
  scheduleTask t st = (Returned a, st).
Proof.
  intros Ha Hne. unfold scheduleTask. rewrite Ha. simpl.
  apply String.eqb_neq in Hne. by rewrite Hne.
Qed.

(** Without a pin the scheduler is the load balancer. *)
Lemma scheduleTask_no_affinity (st : EdgeNode) (t : Task) :
  JS.truthy_string (nodeAffinity (options t)) = false →
  scheduleTask t st = selectOptimalNode t st.
Proof.
  intros Ha. unfold scheduleTask.
  destruct (nodeAffinity (options t)); [by rewrite Ha|done].
Qed.

(** The id the constructor gives a node is never empty. *)
Lemma mkConfig_nodeId_nonempty (c : UserConfig) (generated : string) :
  generated ≠ "" → nodeId (mkConfig c generated) ≠ "".
Proof.
  intros Hg. simpl. destruct (user_nodeId c) as [s|]; simpl; [|done].
  destruct (String.eqb s "") eqn:Hs; simpl; [done|].
  by apply String.eqb_neq.
Qed.

(** C1 (as stated, refuted). The node [edge-1] has no peers and no queue
    for [quantum-processing], so no live node advertises the type; still
    [scheduleTask] does not fail: it returns [edge-1]. *)
Lemma empty_candidates_not_an_error :
  ¬ (∀ (st : EdgeNode) (t : Task),
       listCandidates st (task_type t) = [] →
       ∃ e st', scheduleTask t st = (Thrown e, st')).
Proof.
  intros H.
  destruct (H loneNode quantumTask) as (e & st' & Hthrown).
  - vm_compute. reflexivity.
  - assert (Hret : (scheduleTask quantumTask loneNode).1 = Returned "edge-1")
      by (vm_compute; reflexivity).
    rewrite Hthrown in Hret. discriminate.
Qed.

(** C1 (amended). When no live node advertises the task's type,
    [scheduleTask] still returns a node and raises no error.  For a task
    with an affinity it returns the node the affinity names and leaves the
    node state as it is.  For a task without one it returns a live node of
    maximal score, the local node unless a connected peer scores strictly
    higher, and only the record of scorer calls grows.  In both cases the
    task store is not touched, so the task keeps the status [pending] it
    was submitted with. *)
Theorem scheduleTask_without_candidates (st : EdgeNode) (t : Task) :
  listCandidates st (task_type t) = [] →
  ∃ (n : string) (st' : EdgeNode),
    scheduleTask t st = (Returned n, st') ∧
    tasks st' = tasks st ∧
    (JS.truthy_string (nodeAffinity (options t)) = false → isAlive st n = true) ∧
    (∀ a, nodeAffinity (options t) = Some a → a ≠ "" → n = a ∧ st' = st) ∧
    (JS.truthy_string (nodeAffinity (options t)) = false →
     let local := nodeId (config st) in
     let meshKeys := OMap.keys (meshClients st) in
     (∀ m, isAlive st m = true → (scoreOf st m t <= scoreOf st n t)%Q) ∧
     ((∀ m, m ∈ meshKeys → (scoreOf st m t <= scoreOf st local t)%Q) →
      n = local) ∧
     (n ≠ local → n ∈ meshKeys ∧ (scoreOf st local t < scoreOf st n t)%Q) ∧
     st' = with_scored (scored st ++ local :: meshKeys ++ [local]) st).
Proof.
  intros _.
  destruct (JS.truthy_string (nodeAffinity (options t))) eqn:Ha.
  - destruct (nodeAffinity (options t)) as [a|] eqn:Hopt; [|done].
    exists a, st. split; [|split; [done|split; [done|split; [|done]]]].
    + apply scheduleTask_affinity; [done|].
      simpl in Ha. apply negb_true_iff in Ha. by apply String.eqb_neq.
    + by intros a' [= ->] _.
  - rewrite scheduleTask_no_affinity by done.
    rewrite selectOptimalNode_run. cbv zeta.
    set (local := nodeId (config st)).
    set (meshKeys := OMap.keys (meshClients st)).
    set (score := λ n, scoreOf st n t).
    rewrite (pick_snoc_first score).
    eexists _, _. split; [reflexivity|].
    pose proof (pick_elem_of score meshKeys local (score local)) as Hin.
    pose proof (pick_first_max score meshKeys local) as Hmax.
    pose proof (λ m, pick_maximal score meshKeys local m) as Hle.
    set (r := pick score meshKeys local (score local)) in *.
    assert (Halive : isAlive st r = true).
    { apply bool_decide_eq_true.
      apply elem_of_cons in Hin as [Hin|Hin]; [by left|by right]. }
    split; [reflexivity|]. split; [done|]. split.
    { intros a Hsome Hne. rewrite Hsome in Ha. simpl in Ha.
      apply String.eqb_neq in Hne. by rewrite Hne in Ha. }
    intros _. split; [|split; [|split; [|reflexivity]]].
    + intros m Hm. apply bool_decide_eq_true in Hm. apply (Hle m).
      apply elem_of_cons. destruct Hm as [Hm|Hm]; [by left|by right].
    + intros Hall. destruct Hmax as [[Hr _]|(Hlt & pre & post & Hsplit & _)];
        [done|].
      exfalso. apply (Qlt_not_le _ _ Hlt). apply Hall. rewrite Hsplit.
      apply elem_of_app. right. apply list_elem_of_here.
    + intros Hne. destruct Hmax as [[Hr _]|(Hlt & _)]; [done|].
      split; [|exact Hlt].
      apply elem_of_cons in Hin as [Hin|Hin]; done.
Qed.

Lemma scheduleTask_without_candidates_witness :
  listCandidates tiedPeersNode (task_type quantumTask) = [] ∧
  ∃ (n : string) (st' : EdgeNode),
    scheduleTask quantumTask tiedPeersNode = (Returned n, st') ∧
    tasks st' = tasks tiedPeersNode ∧
    (JS.truthy_string (nodeAffinity (options quantumTask)) = false →
     isAlive tiedPeersNode n = true) ∧
    (∀ a, nodeAffinity (options quantumTask) = Some a → a ≠ "" →
          n = a ∧ st' = tiedPeersNode) ∧
    (JS.truthy_string (nodeAffinity (options quantumTask)) = false →
     let local := nodeId (config tiedPeersNode) in
     let meshKeys := OMap.keys (meshClients tiedPeersNode) in
     (∀ m, isAlive tiedPeersNode m = true →
           (scoreOf tiedPeersNode m quantumTask
            <= scoreOf tiedPeersNode n quantumTask)%Q) ∧
     ((∀ m, m ∈ meshKeys →
            (scoreOf tiedPeersNode m quantumTask
             <= scoreOf tiedPeersNode local quantumTask)%Q) →
      n = local) ∧
     (n ≠ local →
      n ∈ meshKeys ∧
      (scoreOf tiedPeersNode local quantumTask
       < scoreOf tiedPeersNode n quantumTask)%Q) ∧
     st' = with_scored (scored tiedPeersNode ++ local :: meshKeys ++ [local])
             tiedPeersNode).
Proof.
  assert (H : listCandidates tiedPeersNode (task_type quantumTask) = [])
    by (vm_compute; reflexivity).
  split; [exact H|].
  exact (scheduleTask_without_candidates tiedPeersNode quantumTask H).
Defined.

(** No node advertises [quantum-processing], neither the busy local node
    nor its two peers; a task of that type is scheduled on the first peer
    of the highest score, and on the node it names when it has an
    affinity, connected or not. *)
Example unadvertised_type_is_scheduled :
  listCandidates tiedPeersNode "quantum-processing" = [] ∧
  (scheduleTask quantumTask tiedPeersNode).1 = Returned "edge-b" ∧
  (scheduleTask (sampleTask "task-9" "quantum-processing" (Some "edge-9"))
                tiedPeersNode).1 = Returned "edge-9" ∧
  (scheduleTask quantumTask loneNode).1 = Returned "edge-1".
Proof. vm_compute. done. Qed.

(** C2. A task pinned to a live node that advertises the task's type is
    scheduled on exactly that node, and the scorer is not called: the node
    state, with its record of scorer calls, is as before.  (Node ids are
    non-empty strings.) *)
Theorem scheduleTask_affinity_bypasses_scorer
    (st : EdgeNode) (t : Task) (a : string) :
  nodeAffinity (options t) = Some a → a ≠ "" →
  isAlive st a = true →
  task_type t ∈ advertised st a →
  scheduleTask t st = (Returned a, st) ∧
  scored (scheduleTask t st).2 = scored st.
Proof.
  intros Ha Hne _ _. rewrite (scheduleTask_affinity st t a) by done. done.
Qed.

Lemma scheduleTask_affinity_bypasses_scorer_witness :
  scheduleTask pinnedTask scenarioNode = (Returned "edge-2", scenarioNode) ∧
  scored (scheduleTask pinnedTask scenarioNode).2 = scored scenarioNode.
Proof.
  apply (scheduleTask_affinity_bypasses_scorer scenarioNode pinnedTask "edge-2").
  - reflexivity.
  - discriminate.
  - vm_compute. reflexivity.
  - vm_compute. apply list_elem_of_here.
Defined.

(** C3. A task whose [nodeAffinity] is set is scheduled on the node it
    names, whatever the state of the node registry: alive or not, capable
    or not, the id is returned, no error is raised and the node state is
    not even read.  (Node ids are non-empty strings.) *)
Theorem scheduleTask_affinity_unchecked (st : EdgeNode) (t : Task) (a : string) :
  nodeAffinity (options t) = Some a → a ≠ "" →
  scheduleTask t st = (Returned a, st) ∧
  ∀ st' : EdgeNode, (scheduleTask t st').1 = Returned a.
Proof.
  intros Ha Hne. split; [by apply scheduleTask_affinity|].
  intros st'. by rewrite (scheduleTask_affinity st' t a).
Qed.

Lemma scheduleTask_affinity_unchecked_witness :
  isAlive scenarioNode "edge-9" = false ∧
  advertised scenarioNode "edge-9" = [] ∧
  scheduleTask strayTask scenarioNode = (Returned "edge-9", scenarioNode).
Proof.
  split; [vm_compute; reflexivity|]. split; [vm_compute; reflexivity|].
  apply (scheduleTask_affinity_unchecked scenarioNode strayTask "edge-9").
  - reflexivity.
  - discriminate.
Defined.

(** ** Capabilities *)

Lemma elem_of_processing (st : EdgeNode) (taskType : string) :
  taskType ∈ processing (getNodeCapabilities st) ↔
  is_Some (processingQueues st !! taskType).
Proof.
  simpl. rewrite list_elem_of_fmap. split.
  - intros ([k q] & -> & Hq). apply elem_of_map_to_list in Hq. eauto.
  - intros [q Hq]. exists (taskType, q). split; [done|].
    by apply elem_of_map_to_list.
Qed.

(** C7 (as stated, refuted). The peer [edge-2] advertises
    [quantum-processing] and the local node [edge-1] has no queue for it;
    the balancer has no load entry for the peer, so the peer scores 0 and
    the local node 70.  The task is scheduled on [edge-1], which does not
    advertise its type. *)
Lemma selection_ignores_capabilities :
  ¬ (∀ (st : EdgeNode) (t : Task) (n : string),
       (scheduleTask t st).1 = Returned n →
       task_type t ∈ advertised st n).
Proof.
  intros H.
  assert (Hin : task_type quantumTask ∈ advertised quantumPeerNode "edge-1")
    by (apply H; vm_compute; reflexivity).
  apply elem_of_processing in Hin as [q Hq].
  vm_compute in Hq. discriminate.
Qed.

Example capable_peer_passed_over :
  listCandidates quantumPeerNode "quantum-processing" = ["edge-2"] ∧
  (scheduleTask quantumTask quantumPeerNode).1 = Returned "edge-1" ∧
  (processTaskLocally quantumTask quantumPeerNode).1 =
    Thrown (UnknownTaskType "quantum-processing").
Proof. vm_compute. done. Qed.

(** What a successful local placement leaves behind. *)
Lemma processTaskLocally_run (st : EdgeNode) (t : Task) (q : Queue) :
  processingQueues st !! task_type t = Some q →
  processTaskLocally t st =
  let jq := queue_add (task_data t) (getPriorityValue (priority (options t)))
              (default 0%N (delay (options t))) (timeout (options t)) q in
  let st1 := with_processingQueues
               (<[task_type t := jq.2]> (processingQueues st)) st in
  (Returned (),
   with_emitted (emitted st ++ [taskStarted (task_id t)])
     (if decide (tasks st !! task_id t = Some t)
      then with_tasks
             (<[task_id t :=
                  {| task_id := task_id t; task_type := task_type t;
                     task_data := task_data t; options := options t;
                     submittedBy := submittedBy t;
                     status := "processing"; jobId := Some (job_id jq.1) |}]>
                (tasks st)) st1
      else st1)).
Proof.
  intros Hq. unfold processTaskLocally. rewrite bind_run. simpl. rewrite Hq.
  destruct (queue_add _ _ _ _ q) as [job q'].
  repeat (rewrite bind_run; simpl). unfold modify. simpl.
  by destruct (decide (tasks st !! task_id t = Some t)).
Qed.

(** C7 (amended). A task is placed on the local node only if the local
    node advertises the task's type.  [processTaskLocally] returns exactly
    when the local node's advertised processing capabilities contain the
    task's type, and then it has placed the task: a job with the task's
    data, priority weight, delay and timeout is added to the queue of the
    type (waiting, or delayed when the delay is positive), the task is
    marked [processing] with the id of the job (in [tasks], when the task
    is the one stored there) and [taskStarted] is emitted.  When the type
    is not advertised it throws [Unknown task type] and changes
    nothing. *)
Theorem processTaskLocally_checks_capability (st : EdgeNode) (t : Task) :
  let local := nodeId (config st) in
  ((∃ st', processTaskLocally t st = (Returned (), st')) ↔
   task_type t ∈ advertised st local) ∧
  (∀ st', processTaskLocally t st = (Returned (), st') →
     ∃ q job,
       processingQueues st !! task_type t = Some q ∧
       job = {| job_id := jobCounter q + 1; job_data := task_data t;
                job_priority := getPriorityValue (priority (options t));
                job_delay := default 0%N (delay (options t));
                job_timeout := timeout (options t) |} ∧
       processingQueues st' =
         <[task_type t :=
             if (job_delay job =? 0)%N
             then {| waiting := waiting q ++ [job]; delayed := delayed q;
                     jobCounter := job_id job |}
             else {| waiting := waiting q; delayed := delayed q ++ [job];
                     jobCounter := job_id job |}]> (processingQueues st) ∧
       emitted st' = emitted st ++ [taskStarted (task_id t)] ∧
       tasks st' =
         (if decide (tasks st !! task_id t = Some t)
          then <[task_id t :=
                   {| task_id := task_id t; task_type := task_type t;
                      task_data := task_data t; options := options t;
                      submittedBy := submittedBy t;
                      status := "processing"; jobId := Some (job_id job) |}]>
                 (tasks st)
          else tasks st)) ∧
  ((task_type t ∉ advertised st local) →
   processTaskLocally t st = (Thrown (UnknownTaskType (task_type t)), st)).
Proof.
  intros local. unfold advertised. fold local. rewrite decide_True by done.
  rewrite elem_of_processing.
  destruct (processingQueues st !! task_type t) as [q|] eqn:Hq.
  - rewrite (processTaskLocally_run st t q Hq). cbv zeta.
    split; [|split].
    + split; [eauto|]. intros _. eauto.
    + intros st' [= <-]. exists q. eexists. split; [done|]. split; [reflexivity|].
      unfold queue_add. cbn [job_delay job_id].
      destruct (default 0%N (delay (options t)) =? 0)%N;
        destruct (decide (tasks st !! task_id t = Some t)); done.
    + intros Hnot. exfalso. apply Hnot. eauto.
  - unfold processTaskLocally. rewrite bind_run. simpl. rewrite Hq.
    split; [|split].
    + split; [intros [st' Hst']; discriminate|]. by intros [q Hq'].
    + intros st' Hst'. discriminate.
    + done.
Qed.

(** A stored task that is placed is marked [processing] in [tasks]; for
    a task that is not stored, [tasks] stays as it is. *)
Example placement_marks_stored_task :
  status <$> tasks (processTaskLocally quantumTask
                      (with_processingQueues
                         {[ "quantum-processing" := emptyQueue ]} loneNode)).2
               !! "task-9" = Some "processing" ∧
  tasks (processTaskLocally scenarioTask scenarioNode).2 = tasks scenarioNode.
Proof. vm_compute. done. Qed.

(** ** The optimizer *)

Lemma workers_wf_next_id_fresh (st : EdgeNode) :
  workers_wf st → (cluster_ids st + 1)%N ∉ OMap.keys (workers st).
Proof.
  intros [_ Hall] Hin. unfold OMap.keys in Hin.
  apply list_elem_of_fmap in Hin as ([k info] & Hk & Hin).
  rewrite Forall_forall in Hall. apply Hall in Hin as [_ Hle].
  simpl in *. lia.
Qed.

Lemma workers_wf_head (st : EdgeNode) (k : N) (info : WorkerInfo)
    (rest : list (N * WorkerInfo)) :
  workers_wf st → workers st = (k, info) :: rest →
  worker_id (worker info) = k ∧ (k ∉ OMap.keys rest) ∧
  NoDup (OMap.keys rest) ∧
  Forall (λ e, worker_id (worker e.2) = e.1 ∧ (e.1 <= cluster_ids st)%N) rest.
Proof.
  intros [Hnodup Hall] Hworkers. rewrite Hworkers in Hnodup, Hall.
  apply Forall_cons in Hall as [[Hid _] Hall].
  unfold OMap.keys in *. rewrite fmap_cons in Hnodup.
  apply NoDup_cons in Hnodup as [Hfresh Hnodup]. done.
Qed.

(** Forking a worker and filing it under its id keeps [workers] well
    formed and makes it one entry longer. *)
Lemma fork_and_set_wf (st : EdgeNode) :
  workers_wf st →
  let id := (cluster_ids st + 1)%N in
  let w := {| worker_id := id |} in
  let st' := with_workers (OMap.set (workers st) id (workerEntry w))
               (with_cluster_ids id st) in
  workers_wf st' ∧ OMap.size (workers st') = S (OMap.size (workers st)).
Proof.
  intros Hwf id w st'. pose proof (workers_wf_next_id_fresh st Hwf) as Hfresh.
  destruct Hwf as [Hnodup Hall]. subst st'. simpl.
  rewrite omap_set_fresh by done. split; [split|].
  - simpl. unfold OMap.keys in *. rewrite fmap_app. simpl.
    apply NoDup_app. split; [done|]. split; [|apply NoDup_singleton].
    intros k Hk Hk'. apply list_elem_of_singleton in Hk'. by subst k.
  - simpl. apply Forall_app. split.
    + eapply Forall_impl; [exact Hall|]. intros [k info] [? ?]. simpl in *.
      split; [done|]. lia.
    + apply Forall_singleton. simpl. split; [done|]. lia.
  - unfold OMap.size. rewrite length_app. simpl. lia.
Qed.

Lemma forkWorkers_wf (n : nat) (st : EdgeNode) :
  workers_wf st →
  ∃ st', forkWorkers n st = (Returned (), st') ∧ workers_wf st' ∧
         OMap.size (workers st') = (n + OMap.size (workers st))%nat.
Proof.
  revert st. induction n as [|n IH]; intros st Hwf; simpl.
  - by exists st.
  - repeat (rewrite bind_run; simpl).
    destruct (fork_and_set_wf st Hwf) as [Hwf' Hsize]. simpl in Hwf', Hsize.
    destruct (IH _ Hwf') as (st' & Hrun & Hwf'' & Hsize').
    exists st'. split; [exact Hrun|]. split; [done|].
    simpl in Hsize'. lia.
Qed.

(** What one call of [optimizeResources] does, by cases. *)
Lemma optimizeResources_cases (st : EdgeNode) :
  workers_wf st →
  let old := OMap.size (workers st) in
  let active := cluster_enabled (config st) && isMaster st in
  let usage := toQ (cpuUsage st) in
  ∃ st', optimizeResources st = (Returned (), st') ∧ workers_wf st' ∧
    ((active = true ∧ (80 < usage)%Q ∧ old < cpus st ∧
      OMap.size (workers st') = S old) ∨
     (active = true ∧ (usage < 30)%Q ∧ 1 < old ∧
      S (OMap.size (workers st')) = old) ∨
     (¬ (active = true ∧ (80 < usage)%Q ∧ old < cpus st) ∧
      ¬ (active = true ∧ (usage < 30)%Q ∧ 1 < old) ∧
      OMap.size (workers st') = old)).
Proof.
  intros Hwf old active usage. unfold optimizeResources.
  repeat (rewrite bind_run; simpl). fold active.
  destruct active eqn:Hactive; simpl.
  2:{ exists st. split; [done|]. split; [done|]. right; right.
      repeat split; [intros [? _]; discriminate|intros [? _]; discriminate]. }
  repeat (rewrite bind_run; simpl). fold usage old.
  destruct (Qgtb usage 80) eqn:Hhigh; simpl.
  - apply Qgtb_true in Hhigh.
    destruct (Nat.ltb_spec old (cpus st)) as [Hlt|Hge]; simpl.
    + repeat (rewrite bind_run; simpl).
      destruct (fork_and_set_wf st Hwf) as [Hwf' Hsize]. simpl in Hwf', Hsize.
      eexists. split; [reflexivity|]. split; [exact Hwf'|]. left. done.
    + assert (Hlow : Qgtb 30 usage = false) by (apply Qgtb_false; lra).
      rewrite Hlow. simpl. exists st. split; [done|]. split; [done|].
      right; right. repeat split; [|intros (_ & ? & _); lra].
      intros (_ & _ & ?). lia.
  - apply Qgtb_false in Hhigh.
    destruct (Qgtb 30 usage) eqn:Hlow; simpl.
    + apply Qgtb_true in Hlow.
      destruct (Nat.ltb_spec 1 old) as [Hlt|Hge]; simpl.
      * subst old.
        destruct (workers st) as [|[k info] rest] eqn:Hworkers;
          [simpl in Hlt; lia|].
        destruct (workers_wf_head st k info rest Hwf Hworkers)
          as (Hid & Hfresh & Hnodup & Hall).
        repeat (rewrite bind_run; csimpl). rewrite Hworkers. csimpl.
        eexists. split; [reflexivity|].
        simpl. rewrite Hworkers, Hid, omap_delete_head by done.
        split; [by split|]. right; left. done.
      * exists st. split; [done|]. split; [done|]. right; right.
        repeat split; [intros (_ & ? & _); lra|intros (_ & _ & ?); lia].
    + apply Qgtb_false in Hlow.
      exists st. split; [done|]. split; [done|]. right; right.
      repeat split; [intros (_ & ? & _); lra|intros (_ & ? & _); lra].
Qed.

(** C9. One call of [optimizeResources] changes the number of workers by
    at most one: it adds a worker only when the CPU usage is above 80 and
    the number is below [maxWorkers] (the number of cores), removes one
    only when the usage is below 30 and the number is above 1, and
    otherwise leaves the number as it is; so a number within 1 and
    [maxWorkers] stays within.  (It acts in the master process of an
    enabled cluster, and there in every such case.) *)
Theorem optimizeResources_one_worker_per_call (st : EdgeNode) :
  workers_wf st →
  let old := OMap.size (workers st) in
  let active := cluster_enabled (config st) && isMaster st in
  let usage := toQ (cpuUsage st) in
  ∃ st', optimizeResources st = (Returned (), st') ∧
    let new := OMap.size (workers st') in
    (new = S old ↔ active = true ∧ (80 < usage)%Q ∧ old < cpus st) ∧
    (S new = old ↔ active = true ∧ (usage < 30)%Q ∧ 1 < old) ∧
    (new = old ∨ new = S old ∨ S new = old) ∧
    ((1 ≤ old ≤ cpus st)%nat → (1 ≤ new ≤ cpus st)%nat) ∧
    workers_wf st'.
Proof.
  intros Hwf old active usage.
  destruct (optimizeResources_cases st Hwf) as (st' & Hrun & Hwf' & Hcases).
  fold old active usage in Hcases.
  exists st'. split; [exact Hrun|]. simpl.
  destruct Hcases as [(Ha & Hu & Ho & Hn)|[(Ha & Hu & Ho & Hn)|(Hadd & Hrem & Hn)]].
  all: repeat match goal with
              | |- _ ∧ _ => split
              | |- _ ↔ _ => split
              end;
    first [ exact Hwf'
          | intros (? & ? & ?); first [lra | lia | tauto]
          | intros; first [lia | done] ].
Qed.

Lemma optimizeResources_one_worker_per_call_witness :
  OMap.size (workers twoWorkerNode) = 2%nat ∧
  ∃ st', optimizeResources twoWorkerNode = (Returned (), st') ∧
    (OMap.size (workers st') = 3%nat ↔
       cluster_enabled (config twoWorkerNode) && isMaster twoWorkerNode = true ∧
       (80 < toQ (cpuUsage twoWorkerNode))%Q ∧ 2 < cpus twoWorkerNode) ∧
    (S (OMap.size (workers st')) = 2%nat ↔
       cluster_enabled (config twoWorkerNode) && isMaster twoWorkerNode = true ∧
       (toQ (cpuUsage twoWorkerNode) < 30)%Q ∧ 1 < 2) ∧
    (OMap.size (workers st') = 2%nat ∨ OMap.size (workers st') = 3%nat ∨
     S (OMap.size (workers st')) = 2%nat) ∧
    ((1 ≤ 2 ≤ cpus twoWorkerNode)%nat →
     (1 ≤ OMap.size (workers st') ≤ cpus twoWorkerNode)%nat) ∧
    workers_wf st'.
Proof.
  split; [reflexivity|].
  apply (optimizeResources_one_worker_per_call twoWorkerNode).
  unfold workers_wf. apply (bool_decide_unpack _). vm_compute. exact I.
Defined.

Example optimizeResources_removes_idle_worker :
  OMap.keys (workers twoWorkerNode) = [1%N; 2%N] ∧
  OMap.keys (workers (optimizeResources twoWorkerNode).2) = [2%N] ∧
  killed (optimizeResources twoWorkerNode).2 = [1%N].
Proof. vm_compute. done. Qed.

(** The [exit] handler replaces a worker that died, so the number of
    workers is as before and [workers] stays well formed. *)
Lemma onWorkerExit_wf (st : EdgeNode) (w : Worker) :
  workers_wf st →
  ∃ st', onWorkerExit w st = (Returned (), st') ∧ workers_wf st'.
Proof.
  intros [Hnodup Hall]. unfold onWorkerExit.
  repeat (rewrite bind_run; simpl).
  pose (st1 := with_workers (OMap.delete (workers st) (worker_id w)) st).
  assert (Hwf1 : workers_wf st1).
  { assert (Hsub : sublist (OMap.delete (workers st) (worker_id w)) (workers st))
      by apply sublist_filter.
    split; simpl.
    - unfold OMap.keys. eapply sublist_NoDup; [exact Hnodup|].
      by apply fmap_sublist.
    - rewrite Forall_forall in Hall |- *. intros x Hx.
      apply Hall. by eapply elem_of_sublist. }
  destruct (fork_and_set_wf st1 Hwf1) as [Hwf' _].
  eexists. split; [reflexivity|]. exact Hwf'.
Qed.

(** ** Retries *)

Section adapter_facts.
Import TaskQueueAdapter.
Variable cfg : Config.
Variable maxDelay : N.

Lemma defaultConfig_retryAttempts : maxRetries defaultConfig = 3%N.
Proof. reflexivity. Qed.

Lemma baseDelay_2000 : baseDelay cfg = 2000%N.
Proof. reflexivity. Qed.

(** A nack of a task that is not queued is refused and changes nothing;
    so a dead-lettered task is not retried and fails only once. *)
Lemma nack_not_queued (taskId : string) (s : Store) :
  queued s !! taskId = None → nack cfg maxDelay taskId s = None.
Proof. intros Hq. unfold nack. by rewrite Hq. Qed.

(** While the budget lasts, [k] nacks leave the task queued with [k] more
    retries, and nothing is dead-lettered or reported. *)
Lemma nacks_within_budget (k : nat) (taskId : string) (s : Store) (e : Entry) :
  queued s !! taskId = Some e →
  (retryCount e + N.of_nat k <= maxRetries cfg)%N →
  ∃ s', nacks cfg maxDelay k taskId s = Some s' ∧
        retryCount <$> queued s' !! taskId = Some (retryCount e + N.of_nat k)%N ∧
        deadLetter s' = deadLetter s ∧ events s' = events s.
Proof.
  revert s e. induction k as [|k IH]; intros s e Hq Hle.
  - exists s. simpl. rewrite Hq. simpl. rewrite N.add_0_r. done.
  - simpl. unfold nack at 1. rewrite Hq.
    destruct (N.ltb_spec (maxRetries cfg) (retryCount e + 1)) as [Hlt|Hge]; [lia|].
    simpl.
    set (e1 := {| retryCount := retryCount e + 1;
                  backoffDelay := backoff cfg maxDelay (retryCount e + 1) |}).
    set (s1 := {| queued := <[taskId := e1]> (queued s);
                  deadLetter := deadLetter s; events := events s |}).
    destruct (IH s1 e1) as (s' & Hrun & Hcount & Hdead & Hev);
      [apply lookup_insert_eq|simpl; lia|].
    exists s'. split; [exact Hrun|]. simpl in *.
    split; [|done]. rewrite Hcount. f_equal. lia.
Qed.

End adapter_facts.

(** C8. Every nack of a queued task raises its retry count by exactly one.
    While the new count is within [maxRetries] (the configured
    [retryAttempts], 3 by default) the task is queued again with the delay
    [min maxDelay (2000 * 2 ^ retryCount)] and nothing is dead-lettered
    or reported; when the new count exceeds [maxRetries], and only then,
    the task leaves the queue for the dead-letter store and one
    task-failed event is emitted. *)
Theorem nack_retries_then_dead_letters
    (cfg : Config) (maxDelay : N) (taskId : string)
    (s : TaskQueueAdapter.Store) (e : TaskQueueAdapter.Entry) :
  TaskQueueAdapter.queued s !! taskId = Some e →
  TaskQueueAdapter.deadLetter s !! taskId = None →
  let retries := (TaskQueueAdapter.retryCount e + 1)%N in
  TaskQueueAdapter.maxRetries cfg = retryAttempts cfg ∧
  TaskQueueAdapter.maxRetries defaultConfig = 3%N ∧
  ∃ s', TaskQueueAdapter.nack cfg maxDelay taskId s = Some s' ∧
    ((retries <= TaskQueueAdapter.maxRetries cfg)%N →
       TaskQueueAdapter.queued s' !! taskId =
         Some {| TaskQueueAdapter.retryCount := retries;
                 TaskQueueAdapter.backoffDelay :=
                   N.min maxDelay (2000 * 2 ^ retries) |} ∧
       TaskQueueAdapter.deadLetter s' !! taskId = None ∧
       TaskQueueAdapter.events s' = TaskQueueAdapter.events s) ∧
    ((TaskQueueAdapter.maxRetries cfg < retries)%N →
       TaskQueueAdapter.queued s' !! taskId = None ∧
       TaskQueueAdapter.retryCount <$> TaskQueueAdapter.deadLetter s' !! taskId =
         Some retries ∧
       TaskQueueAdapter.events s' =
         TaskQueueAdapter.events s ++ [TaskQueueAdapter.taskFailed taskId]).
Proof.
  intros Hq Hdead retries. split; [reflexivity|]. split; [reflexivity|].
  unfold TaskQueueAdapter.nack. rewrite Hq. fold retries.
  destruct (N.ltb_spec (TaskQueueAdapter.maxRetries cfg) retries) as [Hlt|Hge].
  - eexists. split; [reflexivity|]. simpl. split; [lia|]. intros _.
    rewrite lookup_delete_eq, lookup_insert_eq. done.
  - eexists. split; [reflexivity|]. simpl. split; [|lia]. intros _.
    rewrite lookup_insert_eq. done.
Qed.

Lemma nack_retries_then_dead_letters_witness :
  ∃ s', TaskQueueAdapter.nack defaultConfig 60000 "task-1" oneTaskStore = Some s' ∧
        TaskQueueAdapter.queued s' !! "task-1" =
          Some {| TaskQueueAdapter.retryCount := 1;
                  TaskQueueAdapter.backoffDelay := 4000 |} ∧
        TaskQueueAdapter.deadLetter s' !! "task-1" = None ∧
        TaskQueueAdapter.events s' = [].
Proof.
  destruct (nack_retries_then_dead_letters defaultConfig 60000 "task-1"
              oneTaskStore
              {| TaskQueueAdapter.retryCount := 0;
                 TaskQueueAdapter.backoffDelay := 0 |})
    as (_ & _ & s' & Hrun & Hqueued & _).
  - vm_compute. reflexivity.
  - vm_compute. reflexivity.
  - exists s'. split; [exact Hrun|]. apply Hqueued. vm_compute. discriminate.
Defined.

(** From a fresh task with the default budget of 3: three nacks keep it
    queued, the fourth dead-letters it with one event, a fifth is
    refused. *)
Example four_nacks_dead_letter :
  (TaskQueueAdapter.nacks defaultConfig 60000 3 "task-1" oneTaskStore
     ≫= λ s, TaskQueueAdapter.retryCount <$> TaskQueueAdapter.queued s !! "task-1")
    = Some 3%N ∧
  (TaskQueueAdapter.events <$>
     TaskQueueAdapter.nacks defaultConfig 60000 3 "task-1" oneTaskStore) = Some [] ∧
  (TaskQueueAdapter.events <$>
     TaskQueueAdapter.nacks defaultConfig 60000 4 "task-1" oneTaskStore)
    = Some [TaskQueueAdapter.taskFailed "task-1"] ∧
  TaskQueueAdapter.nacks defaultConfig 60000 5 "task-1" oneTaskStore = None.
Proof. vm_compute. done. Qed.

(** * Further properties *)

(** ** Syllables *)

Section syllables.
Import AIProcessor.

Lemma length_toLowerCase (s : string) :
  String.length (toLowerCase s) = String.length s.
Proof. induction s as [|c s IH]; simpl; [done|]. by rewrite IH. Qed.

Lemma toLowerCase_char_idemp (c : ascii) :
  toLowerCase_char (toLowerCase_char c) = toLowerCase_char c.
Proof. destruct c as [[] [] [] [] [] [] [] []]; vm_compute; reflexivity. Qed.

Lemma toLowerCase_idemp (s : string) :
  toLowerCase (toLowerCase s) = toLowerCase s.
Proof.
  induction s as [|c s IH]; simpl; [done|].
  by rewrite toLowerCase_char_idemp, IH.
Qed.

(** Between two counted vowels there is a consonant: the loop adds at most
    one for every two characters. *)
Lemma syllableLoop_bounds (w : string) (n : Z) (prev : bool) :
  (n <= syllableLoop w n prev
     <= n + (Z.of_nat (String.length w) + (if prev then 0 else 1)) / 2)%Z.
Proof.
  revert n prev. induction w as [|c w IH]; intros n prev.
  - simpl. destruct prev; simpl; Z.to_euclidean_division_equations; lia.
  - cbn [syllableLoop String.length].
    destruct (includes vowels c) eqn:Hv, prev; simpl;
      match goal with
      | |- context [syllableLoop w ?m ?p] => specialize (IH m p)
      end; simpl in IH;
      rewrite Nat2Z.inj_succ; Z.to_euclidean_division_equations; lia.
Qed.

(** X1. For a word of ASCII characters [countSyllables] is at least 1
    and at most one syllable for every two characters of the word, rounded
    up.  (Lower-casing an ASCII word keeps its length; the bound counts
    the characters of the word as given.) *)
Theorem countSyllables_bounds (word : string) :
  isASCII word = true →
  (1 <= countSyllables word
     <= Z.max 1 ((Z.of_nat (String.length word) + 1) / 2))%Z.
Proof.
  intros _. unfold countSyllables. rewrite length_toLowerCase.
  destruct (String.length word <=? 3)%nat; [lia|].
  pose proof (syllableLoop_bounds (toLowerCase word) 0 false) as H.
  rewrite length_toLowerCase in H. simpl in H.
  destruct (endsWith (toLowerCase word) "e"); lia.
Qed.

Lemma countSyllables_bounds_witness :
  isASCII "Banana" = true ∧
  (1 <= countSyllables "Banana"
     <= Z.max 1 ((Z.of_nat (String.length "Banana") + 1) / 2))%Z.
Proof.
  split; [reflexivity|].
  apply (countSyllables_bounds "Banana"). reflexivity.
Defined.

(** With six letters the bound of three is reached. *)
Example countSyllables_banana : countSyllables "Banana" = 3%Z.
Proof. reflexivity. Qed.

(** X2. The count does not depend on the case of the letters: a word and
    its lower-case form count the same. *)
Theorem countSyllables_toLowerCase (word : string) :
  countSyllables (toLowerCase word) = countSyllables word.
Proof. unfold countSyllables. by rewrite toLowerCase_idemp. Qed.

Lemma toLowerCase_app (a b : string) :
  toLowerCase (a +:+ b) = toLowerCase a +:+ toLowerCase b.
Proof. induction a as [|c a IH]; simpl; [done|]. by rewrite IH. Qed.

Lemma string_length_app (a b : string) :
  String.length (a +:+ b) = (String.length a + String.length b)%nat.
Proof. induction a as [|c a IH]; simpl; [done|]. by rewrite IH. Qed.

(** After a consonant the loop goes on as if from the start of a word. *)
Lemma syllableLoop_app_consonant (u rest : string) (c : ascii) (n : Z) (p : bool) :
  includes vowels c = false →
  syllableLoop (u +:+ String c rest) n p =
  syllableLoop rest (syllableLoop u n p) false.
Proof.
  intros Hc. revert n p. induction u as [|d u IH]; intros n p.
  - change ("" +:+ String c rest) with (String c rest).
    cbn [syllableLoop]. rewrite Hc. reflexivity.
  - change (String d u +:+ String c rest) with (String d (u +:+ String c rest)).
    cbn [syllableLoop]. apply IH.
Qed.

Lemma endsWith_app (u v : string) (x ch : ascii) :
  endsWith (u +:+ String x v) ch = endsWith (String x v) ch.
Proof.
  induction u as [|d u IH]; [done|].
  change (String d u +:+ String x v) with (String d (u +:+ String x v)).
  rewrite <- IH. destruct u; reflexivity.
Qed.

(** X3. A final [e] after a consonant is silent: the word counts as many
    syllables with it as without it. *)
Theorem countSyllables_silent_e (u : string) (c : ascii) :
  includes vowels (toLowerCase_char c) = false →
  countSyllables (u +:+ String c "e") = countSyllables (u +:+ String c "").
Proof.
  intros Hc. unfold countSyllables.
  rewrite !toLowerCase_app, !string_length_app, !length_toLowerCase.
  cbn [toLowerCase String.length].
  change (toLowerCase_char "e") with "e"%char.
  rewrite !(syllableLoop_app_consonant _ _ _ _ _ Hc), !endsWith_app.
  assert (Hne : Ascii.eqb (toLowerCase_char c) "e" = false).
  { destruct (Ascii.eqb_spec (toLowerCase_char c) "e") as [He|]; [|done].
    rewrite He in Hc. discriminate. }
  cbn [endsWith syllableLoop]. rewrite Hne, Ascii.eqb_refl.
  change (includes vowels "e") with true. cbn [andb negb].
  pose proof (syllableLoop_bounds (toLowerCase u) 0 false) as Hb.
  rewrite length_toLowerCase in Hb. cbn beta iota in Hb.
  destruct (Nat.leb_spec (String.length u + 2) 3),
           (Nat.leb_spec (String.length u + 1) 3);
    try lia; Z.to_euclidean_division_equations; lia.
Qed.

Lemma countSyllables_silent_e_witness :
  countSyllables "compute" = countSyllables "comput" ∧
  countSyllables "comput" = 2%Z.
Proof.
  split; [|reflexivity].
  apply (countSyllables_silent_e "compu" "t"). reflexivity.
Defined.

Example countSyllables_examples :
  countSyllables "beautiful" = 3%Z ∧ countSyllables "Make" = 1%Z ∧
  countSyllables "rhythm" = 1%Z ∧ countSyllables "" = 1%Z.
Proof. repeat split. Qed.

End syllables.

(** ** Batches *)

Section batch_facts.
Import AIProcessor.
Context {Item Result Err : Type}.
Variable processor : Item → nat → nat → Result + Err.

Lemma firstOutcome_is_Some (n : nat) (item : Item) (index k : nat) :
  is_Some (firstOutcome processor (S n) item index k).
Proof.
  revert k. induction n as [|n IH]; intros k; simpl.
  - destruct (processor item index k); eauto.
  - destruct (processor item index k); [eauto|]. apply (IH (S k)).
Qed.

Lemma processItemLoop_slot (n : nat) (item : Item) (i k : nat)
    (o : BatchOutput) (j : nat) :
  slot (processItemLoop processor n item i (Z.of_nat k) (Z.of_nat (k + n) - 1) o) j =
  if decide (j = i)
  then settle (firstOutcome processor n item i k) (slot o j)
  else slot o j.
Proof.
  revert k o. induction n as [|n IH]; intros k o.
  - simpl. by destruct (decide (j = i)).
  - cbn [processItemLoop firstOutcome].
    destruct (Z.leb_spec (Z.of_nat k) (Z.of_nat (k + S n) - 1)) as [_|Hlt]; [|lia].
    rewrite Nat2Z.id.
    destruct (processor item i k) as [result|error].
    + unfold slot, settle. simpl. destruct (decide (j = i)) as [->|Hj].
      * by rewrite lookup_insert_eq.
      * by rewrite lookup_insert_ne.
    + destruct n as [|n].
      * destruct (Z.ltb_spec (Z.of_nat (k + 1) - 1) (Z.of_nat k + 1)) as [_|Hge];
          [|lia].
        unfold slot, settle. simpl. destruct (decide (j = i)) as [->|Hj].
        -- by rewrite lookup_insert_eq.
        -- by rewrite lookup_insert_ne.
      * destruct (Z.ltb_spec (Z.of_nat (k + S (S n)) - 1) (Z.of_nat k + 1))
          as [Hlt|_]; [lia|].
        replace (Z.of_nat k + 1)%Z with (Z.of_nat (S k)) by lia.
        replace (Z.of_nat (k + S (S n)) - 1)%Z
          with (Z.of_nat (S k + S n) - 1)%Z by lia.
        apply IH.
Qed.

Lemma processItem_slot (retries : Z) (item : Item) (i : nat)
    (o : BatchOutput) (j : nat) :
  (0 <= retries)%Z →
  slot (processItem processor retries item i o) j =
  if decide (j = i)
  then settle (firstOutcome processor (Z.to_nat (retries + 1)) item i 0) (slot o j)
  else slot o j.
Proof.
  intros Hr. unfold processItem.
  rewrite <- (processItemLoop_slot (Z.to_nat (retries + 1)) item i 0 o j).
  do 2 f_equal. simpl. lia.
Qed.

Lemma processBatch_slot (retries : Z) (batch : list Item) (i : nat)
    (o : BatchOutput) (j : nat) :
  (0 <= retries)%Z →
  slot (processBatch processor retries batch i o) j =
  match (if decide (i ≤ j)%nat then batch !! (j - i)%nat else None) with
  | Some item =>
      settle (firstOutcome processor (Z.to_nat (retries + 1)) item j 0) (slot o j)
  | None => slot o j
  end.
Proof.
  intros Hr. revert i o. induction batch as [|item rest IH]; intros i o.
  - simpl. by destruct (decide (i ≤ j)%nat).
  - cbn [processBatch]. rewrite IH, processItem_slot by done.
    destruct (decide (i ≤ j)%nat) as [Hij|Hij].
    + destruct (decide (j = i)) as [->|Hne].
      * rewrite decide_False by lia. by rewrite Nat.sub_diag.
      * rewrite decide_True by lia.
        replace (j - i)%nat with (S (j - S i)) by lia. done.
    + rewrite decide_False by lia. by rewrite decide_False by lia.
Qed.

Lemma batchLoop_slot (fuel : nat) (items : list Item) (i concurrency : nat)
    (retries : Z) (o : BatchOutput) :
  (0 < concurrency)%nat → (0 <= retries)%Z →
  (length items - i ≤ fuel)%nat →
  ∃ o', batchLoop processor fuel items i concurrency retries o = Some o' ∧
    ∀ j, slot o' j =
         match (if decide (i ≤ j)%nat then items !! j else None) with
         | Some item =>
             settle (firstOutcome processor (Z.to_nat (retries + 1)) item j 0)
                    (slot o j)
         | None => slot o j
         end.
Proof.
  intros Hc Hr. revert i o. induction fuel as [|fuel IH]; intros i o Hfuel.
  - exists o. unfold batchLoop.
    destruct (Nat.ltb_spec i (length items)); [lia|]. split; [done|].
    intros j. destruct (decide (i ≤ j)%nat); [|done].
    by rewrite lookup_ge_None_2 by lia.
  - cbn [batchLoop]. destruct (Nat.ltb_spec i (length items)) as [Hlt|Hge].
    + destruct (IH (i + concurrency)%nat
                  (processBatch processor retries
                     (take concurrency (drop i items)) i o))
        as (o' & Hrun & Hslot); [lia|].
      exists o'. split; [exact Hrun|]. intros j. rewrite Hslot.
      rewrite processBatch_slot by done.
      destruct (decide (i + concurrency ≤ j)%nat) as [Hj|Hj],
               (decide (i ≤ j)%nat) as [Hij|Hij]; try lia.
      * rewrite lookup_take_ge by lia. done.
      * rewrite lookup_take_lt by lia. rewrite lookup_drop.
        replace (i + (j - i))%nat with j by lia.
        by destruct (items !! j).
      * done.
    + exists o. split; [done|]. intros j.
      destruct (decide (i ≤ j)%nat); [|done].
      by rewrite lookup_ge_None_2 by lia.
Qed.

(** X4. With a positive batch size and a non-negative retry budget,
    [batchProcess] finishes, and for every item exactly one of
    [results[index]] and [errors[index]] is set: the result of the first
    successful call of [processor(item, index)] among at most
    [retries + 1], or else the error of the last call.  Nothing is set
    beyond the items, and the batch size does not change the outcome. *)
Theorem batchProcess_outcomes (items : list Item) (concurrency : nat) (retries : Z) :
  (0 < concurrency)%nat → (0 <= retries)%Z →
  ∃ o, (∀ fuel, (length items ≤ fuel)%nat →
          batchProcess processor fuel items (Some concurrency) (Some retries)
          = Some o) ∧
       batchProcess processor (length items) items (Some 1%nat) (Some retries)
       = Some o ∧
    ∀ i, match items !! i with
         | Some item =>
             match firstOutcome processor (Z.to_nat (retries + 1)) item i 0 with
             | Some (inl result) =>
                 results o !! i = Some result ∧ errors o !! i = None
             | Some (inr error) =>
                 results o !! i = None ∧ errors o !! i = Some error
             | None => False
             end
         | None => results o !! i = None ∧ errors o !! i = None
         end.
Proof.
  intros Hc Hr. unfold batchProcess. simpl.
  set (o0 := {| results := ∅; errors := ∅ |} : @BatchOutput Result Err).
  destruct (batchLoop_slot (length items) items 0 concurrency retries o0 Hc Hr)
    as (o & Hrun & Hslot); [lia|].
  assert (Hspec : ∀ i, slot o i =
            match items !! i with
            | Some item =>
                settle (firstOutcome processor (Z.to_nat (retries + 1)) item i 0)
                       (None, None)
            | None => (None, None)
            end).
  { intros i. rewrite Hslot. rewrite decide_True by lia. unfold slot, o0. simpl.
    rewrite !lookup_empty. done. }
  assert (Hany : ∀ c fuel, (0 < c)%nat → (length items ≤ fuel)%nat →
            batchLoop processor fuel items 0 c retries o0 = Some o).
  { intros c fuel Hc' Hfuel.
    destruct (batchLoop_slot fuel items 0 c retries o0 Hc' Hr)
      as (o' & Hrun' & Hslot'); [lia|].
    rewrite Hrun'. f_equal. destruct o as [ro eo], o' as [ro' eo'].
    assert (Heq : ∀ j, (ro' !! j, eo' !! j) = (ro !! j, eo !! j)).
    { intros j. pose proof (Hslot' j) as H1. pose proof (Hslot j) as H2.
      unfold slot in H1, H2. simpl in H1, H2. congruence. }
    f_equal; apply map_eq; intros j; specialize (Heq j); congruence. }
  exists o. split; [intros fuel Hfuel; by apply Hany|].
  split; [apply Hany; lia|].
  intros i. specialize (Hspec i). unfold slot in Hspec.
  destruct (items !! i) as [item|]; [|by inversion Hspec].
  replace (Z.to_nat (retries + 1)) with (S (Z.to_nat retries)) in * by lia.
  destruct (firstOutcome_is_Some (Z.to_nat retries) item i 0) as [out Hout].
  rewrite Hout in Hspec |- *.
  destruct out; simpl in Hspec; by inversion Hspec.
Qed.

(** X5. With a batch size of 0 and at least one item the loop never
    advances: [batchProcess] does not finish, however long it runs. *)
Theorem batchProcess_zero_concurrency (item : Item) (items : list Item)
    (retries : option Z) (fuel : nat) :
  batchProcess processor fuel (item :: items) (Some 0%nat) retries = None.
Proof.
  unfold batchProcess. simpl default.
  generalize ({| results := ∅; errors := ∅ |} : @BatchOutput Result Err).
  induction fuel as [|fuel IH]; intros o; [done|].
  cbn [batchLoop length Nat.ltb Nat.leb]. simpl. apply IH.
Qed.

End batch_facts.

Lemma batchProcess_outcomes_witness :
  ∃ o, AIProcessor.batchProcess flakyProcessor 3 [0; 1; 5]%nat (Some 2%nat) (Some 2%Z) = Some o ∧
       AIProcessor.results o !! 1%nat = Some 2%nat ∧
       AIProcessor.errors o !! 1%nat = None ∧
       AIProcessor.results o !! 2%nat = None ∧
       AIProcessor.errors o !! 2%nat = Some "failed".
Proof.
  destruct (batchProcess_outcomes flakyProcessor [0; 1; 5]%nat 2 2)
    as (o & Hrun & _ & Hout); [lia|lia|].
  exists o. split; [apply Hrun; simpl; lia|].
  pose proof (Hout 1%nat) as H1. pose proof (Hout 2%nat) as H2.
  simpl in H1, H2. tauto.
Defined.

(** ** Metrics *)

Lemma updateMetrics_invariant (t : Q) (m : Metrics) :
  tasksProcessed (updateMetrics t m) = (tasksProcessed m + 1)%N ∧
  (avgProcessingTime (updateMetrics t m)
     * inject_Z (Z.of_N (tasksProcessed m + 1))
   == avgProcessingTime m * inject_Z (Z.of_N (tasksProcessed m)) + t)%Q ∧
  errors (updateMetrics t m) = errors m.
Proof.
  split; [done|]. split; [|done]. simpl.
  replace (tasksProcessed m + 1 - 1)%N with (tasksProcessed m) by lia.
  field. intros H. unfold Qeq in H. simpl in H. lia.
Qed.

(** X6. [updateMetrics] keeps a running mean: after it was called with
    the times [ts] on fresh metrics, [tasksProcessed] is their number and
    [avgProcessingTime] times that number is their sum. *)
Theorem updateMetrics_running_mean (ts : list Q) :
  let m := foldl (λ m t, updateMetrics t m) initialMetrics ts in
  tasksProcessed m = N.of_nat (length ts) ∧
  (avgProcessingTime m * inject_Z (Z.of_nat (length ts)) == Qsum ts)%Q.
Proof.
  assert (Hgen : ∀ m0,
    let m := foldl (λ m t, updateMetrics t m) m0 ts in
    tasksProcessed m = (tasksProcessed m0 + N.of_nat (length ts))%N ∧
    (avgProcessingTime m * inject_Z (Z.of_N (tasksProcessed m))
     == avgProcessingTime m0 * inject_Z (Z.of_N (tasksProcessed m0)) + Qsum ts)%Q).
  { induction ts as [|t ts IH]; intros m0; simpl.
    - split; [lia|]. ring.
    - destruct (IH (updateMetrics t m0)) as [Hn Havg].
      destruct (updateMetrics_invariant t m0) as (Hn1 & Havg1 & _).
      split; [rewrite Hn, Hn1; lia|].
      rewrite Havg, Hn1, Havg1. ring. }
  intros m. destruct (Hgen initialMetrics) as [Hn Havg]. fold m in Hn, Havg.
  change (tasksProcessed initialMetrics) with 0%N in Hn, Havg.
  change (avgProcessingTime initialMetrics) with 0%Q in Havg.
  rewrite N.add_0_l in Hn. split; [exact Hn|].
  rewrite Hn, nat_N_Z in Havg. rewrite Havg. ring.
Qed.

(** ** Dispatch *)

Lemma processorFor_queueTypes (t : string) :
  is_Some (processorFor (Some t)) ↔ t ∈ queueTypes.
Proof.
  unfold processorFor, queueTypes. split.
  - intros Hsome.
    repeat match type of Hsome with
    | context [String.eqb t ?s] =>
        revert Hsome; destruct (String.eqb_spec t s) as [->|?]; intros Hsome;
        [clear Hsome;
         repeat first [apply list_elem_of_here | apply list_elem_of_further]|]
    end.
    by destruct Hsome.
  - intros Hin.
    repeat (apply elem_of_cons in Hin as [->|Hin]; [vm_compute; eauto|]).
    by apply elem_of_nil in Hin.
Qed.

Section processTask_facts.
Context {Result Err : Type}.
Variable run : Processor → TaskData → Result + Err.

(** X7. [processTask] throws [Unknown task type] exactly for the payloads
    whose [type] is not one of the seven types [initializeQueues] creates
    queues for (a payload without [type] among them); in both cases of
    failure, unknown type or an error of the processing method, it counts
    one error and leaves the processed count and the average alone. *)
Theorem processTask_unknown_type (taskData : TaskData) (time : Q) (m : Metrics) :
  ((processTask run taskData time m).1
     = inr (UnknownType (JS.to_key (data_type taskData)))
   ↔ ¬ ∃ t, data_type taskData = Some t ∧ t ∈ queueTypes) ∧
  (∀ e, (processTask run taskData time m).1 = inr e →
     (processTask run taskData time m).2 =
       {| tasksProcessed := tasksProcessed m;
          avgProcessingTime := avgProcessingTime m;
          errors := (errors m + 1)%N |}).
Proof.
  unfold processTask.
  destruct (data_type taskData) as [t|] eqn:Ht.
  - pose proof (processorFor_queueTypes t) as Hq.
    destruct (processorFor (Some t)) as [p|].
    + assert (Hin : t ∈ queueTypes) by (apply Hq; eauto).
      destruct (run p taskData); simpl; split; try done.
      * split; [done|]. intros Hno. exfalso. apply Hno. eauto.
      * split; [done|]. intros Hno. exfalso. apply Hno. eauto.
    + simpl. split; [|done]. split; [|done].
      intros _ (t' & [= <-] & Hin). apply Hq in Hin. by destruct Hin.
  - simpl. split; [|done]. split; [|done]. intros _ (t' & Ht' & _). done.
Qed.

Lemma processTask_metrics (taskData : TaskData) (time : Q) (m : Metrics) :
  (processTask run taskData time m).2 =
  if succeeds run taskData then updateMetrics time m
  else {| tasksProcessed := tasksProcessed m;
          avgProcessingTime := avgProcessingTime m;
          errors := (errors m + 1)%N |}.
Proof.
  unfold processTask, succeeds.
  destruct (processorFor (data_type taskData)) as [p|]; [|done].
  by destruct (run p taskData).
Qed.

(** X8. Processing a list of payloads from fresh metrics counts every
    payload once: the successes in [tasksProcessed], the failures in
    [errors]; and the average is the mean of the times of the successes
    only. *)
Theorem processAll_accounting (jobs : list (TaskData * Q)) :
  let m := processAll run jobs initialMetrics in
  tasksProcessed m = N.of_nat (length (successTimes run jobs)) ∧
  (tasksProcessed m + errors m)%N = N.of_nat (length jobs) ∧
  (avgProcessingTime m * inject_Z (Z.of_N (tasksProcessed m))
   == Qsum (successTimes run jobs))%Q.
Proof.
  assert (Hgen : ∀ m0,
    let m := processAll run jobs m0 in
    tasksProcessed m
      = (tasksProcessed m0 + N.of_nat (length (successTimes run jobs)))%N ∧
    (tasksProcessed m + errors m)%N
      = (tasksProcessed m0 + errors m0 + N.of_nat (length jobs))%N ∧
    (avgProcessingTime m * inject_Z (Z.of_N (tasksProcessed m))
     == avgProcessingTime m0 * inject_Z (Z.of_N (tasksProcessed m0))
        + Qsum (successTimes run jobs))%Q).
  { induction jobs as [|[d t] rest IH]; intros m0.
    - simpl. repeat split; [lia|lia|]. unfold successTimes. simpl. ring.
    - cbn [processAll]. specialize (IH (processTask run d t m0).2).
      cbv zeta in IH. destruct IH as (Hn & Htot & Havg).
      pose proof (processTask_metrics d t m0) as Hstep.
      unfold successTimes in *. rewrite filter_cons. cbn [fst].
      destruct (succeeds run d) eqn:Hs.
      + rewrite decide_True by done. rewrite Hstep in *.
        cbn [fmap list_fmap length Qsum foldr snd].
        destruct (updateMetrics_invariant t m0) as (Hn1 & Havg1 & He1).
        rewrite Hn1, ?He1 in *. rewrite !Nat2N.inj_succ.
        split; [lia|]. split; [lia|]. rewrite Havg, Havg1.
        unfold Qsum. ring.
      + rewrite decide_False by done. rewrite Hstep in *.
        cbn [tasksProcessed errors avgProcessingTime length] in *.
        split; [lia|]. split; [lia|]. exact Havg. }
  intros m. destruct (Hgen initialMetrics) as (Hn & Htot & Havg).
  fold m in Hn, Htot, Havg.
  change (tasksProcessed initialMetrics) with 0%N in *.
  change (errors initialMetrics) with 0%N in *.
  change (avgProcessingTime initialMetrics) with 0%Q in *.
  split; [lia|]. split; [lia|]. rewrite Havg. ring.
Qed.

End processTask_facts.

(** A task whose type has a queue is placed. *)
Lemma processTaskLocally_known (st : EdgeNode) (t : Task) (q : Queue) :
  processingQueues st !! task_type t = Some q →
  ∃ st', processTaskLocally t st = (Returned (), st').
Proof.
  intros Hq. unfold processTaskLocally. rewrite bind_run. simpl. rewrite Hq.
  destruct (queue_add _ _ _ _ q) as [job q'].
  repeat (rewrite bind_run; simpl). eauto.
Qed.

(** X9. After [initializeQueues] every one of the seven queue types is
    accepted by [processTaskLocally], and [processTask] has a processing
    method for it: no type with a queue lacks a handler. *)
Theorem queue_types_are_served (st : EdgeNode) (t : Task) :
  task_type t ∈ queueTypes →
  (∃ st', processTaskLocally t (initializeQueues st).2 = (Returned (), st')) ∧
  is_Some (processorFor (Some (task_type t))).
Proof.
  intros Hin. split; [|by apply processorFor_queueTypes].
  assert (Hq : is_Some (processingQueues (initializeQueues st).2 !! task_type t)).
  { unfold initializeQueues, modify, queueTypes in *. simpl.
    repeat (apply elem_of_cons in Hin as [->|Hin];
            [rewrite ?lookup_insert_ne by done; rewrite lookup_insert_eq; eauto|]).
    by apply elem_of_nil in Hin. }
  destruct Hq as [q Hq]. eapply processTaskLocally_known. exact Hq.
Qed.

Lemma queue_types_are_served_witness :
  (∃ st', processTaskLocally scenarioTask (initializeQueues loneNode).2
          = (Returned (), st')) ∧
  is_Some (processorFor (Some (task_type scenarioTask))).
Proof.
  apply (queue_types_are_served loneNode scenarioTask).
  vm_compute. apply list_elem_of_here.
Defined.

(** ** More on insertion-ordered maps *)

Section ordered_map_more.
Context {K V : Type} `{EqDecision K}.
Implicit Types (m : list (K * V)) (k : K) (v : V).

Lemma omap_get_set_eq m k v : OMap.get (OMap.set m k v) k = Some v.
Proof.
  induction m as [|[k' v'] m IH]; simpl.
  - by rewrite decide_True.
  - destruct (decide (k' = k)) as [->|Hne]; simpl.
    + by rewrite decide_True.
    + by rewrite decide_False.
Qed.

Lemma omap_get_set_ne m k k' v :
  k ≠ k' → OMap.get (OMap.set m k v) k' = OMap.get m k'.
Proof.
  intros Hne. induction m as [|[k0 v0] m IH]; simpl.
  - by rewrite decide_False.
  - destruct (decide (k0 = k)) as [->|Hne0]; simpl.
    + by rewrite !decide_False.
    + destruct (decide (k0 = k')); [done|]. exact IH.
Qed.

Lemma omap_keys_set_present m k v :
  k ∈ OMap.keys m → OMap.keys (OMap.set m k v) = OMap.keys m.
Proof.
  unfold OMap.keys. induction m as [|[k' v'] m IH]; csimpl.
  - intros Hin. by apply elem_of_nil in Hin.
  - intros Hin. destruct (decide (k' = k)) as [->|Hne]; csimpl; [done|].
    apply elem_of_cons in Hin as [->|Hin]; [done|]. by rewrite IH.
Qed.

Lemma omap_NoDup_set m k v :
  NoDup (OMap.keys m) → NoDup (OMap.keys (OMap.set m k v)).
Proof.
  intros Hnd. destruct (decide (k ∈ OMap.keys m)) as [Hin|Hnin].
  - by rewrite omap_keys_set_present.
  - rewrite omap_set_fresh by done. unfold OMap.keys in *.
    rewrite fmap_app. apply NoDup_app. split; [done|].
    split; [|apply NoDup_singleton].
    intros x Hx Hx'. apply list_elem_of_singleton in Hx'. by subst x.
Qed.

Lemma omap_delete_app m1 m2 k :
  OMap.delete (m1 ++ m2) k = OMap.delete m1 k ++ OMap.delete m2 k.
Proof. unfold OMap.delete. apply filter_app. Qed.

Lemma omap_get_elem_of m k v : OMap.get m k = Some v → (k, v) ∈ m.
Proof.
  induction m as [|[k' v'] m IH]; simpl; [done|].
  destruct (decide (k' = k)) as [->|Hne].
  - intros [= ->]. apply list_elem_of_here.
  - intros Hget. apply list_elem_of_further. by apply IH.
Qed.

Lemma omap_elem_of_get m k v :
  NoDup (OMap.keys m) → (k, v) ∈ m → OMap.get m k = Some v.
Proof.
  unfold OMap.keys. induction m as [|[k' v'] m IH]; csimpl.
  - intros _ Hin. by apply elem_of_nil in Hin.
  - intros Hnd Hin. apply NoDup_cons in Hnd as [Hfresh Hnd].
    apply elem_of_cons in Hin as [[= -> ->]|Hin].
    + by rewrite decide_True.
    + rewrite decide_False; [by apply IH|].
      intros ->. apply Hfresh. apply list_elem_of_fmap. by exists (k, v).
Qed.

(** Deleting the [n] oldest keys one by one drops the [n] oldest entries. *)
Lemma omap_delete_oldest m (n : nat) :
  NoDup (OMap.keys m) →
  foldl (λ cache e, OMap.delete cache e.1) m (take n m) = drop n m.
Proof.
  unfold OMap.keys. revert n. induction m as [|[k v] m IH]; intros n Hnd.
  - by destruct n.
  - destruct n as [|n]; [done|]. csimpl in Hnd.
    apply NoDup_cons in Hnd as [Hfresh Hnd]. cbn [take foldl drop fst].
    rewrite omap_delete_head by done. by apply IH.
Qed.

End ordered_map_more.

(** ** The result cache and the model registry *)

Section registry_facts.
Import ModelRegistry.
Context {Input Output Err : Type}.
Implicit Types (r : @Registry Output).

(** X10. When the cache holds more than [maxCacheSize] results,
    [cleanupModelCache] keeps exactly the [maxCacheSize] entries inserted
    last, in their order, and drops the older ones; a cache within the
    limit is left as it is.  The models are not touched. *)
Theorem cleanupModelCache_keeps_newest (maxCacheSize : nat) r :
  NoDup (OMap.keys (modelCache r)) →
  let r' := cleanupModelCache maxCacheSize r in
  modelCache r' = drop (OMap.size (modelCache r) - maxCacheSize) (modelCache r) ∧
  OMap.size (modelCache r') = (OMap.size (modelCache r) `min` maxCacheSize)%nat ∧
  aiModels r' = aiModels r ∧
  cleanupModelCache maxCacheSize r' = r'.
Proof.
  intros Hnd r'. unfold OMap.size in *.
  assert (Hcache : modelCache r'
            = drop (length (modelCache r) - maxCacheSize) (modelCache r)).
  { subst r'. unfold cleanupModelCache, OMap.size.
    destruct (Nat.ltb_spec maxCacheSize (length (modelCache r))) as [Hlt|Hge].
    - simpl. by apply omap_delete_oldest.
    - by replace (length (modelCache r) - maxCacheSize)%nat with 0%nat by lia. }
  assert (Hsize : length (modelCache r')
            = (length (modelCache r) `min` maxCacheSize)%nat).
  { rewrite Hcache, length_drop. lia. }
  split; [exact Hcache|]. split; [exact Hsize|]. split.
  - subst r'. unfold cleanupModelCache.
    by destruct (maxCacheSize <? OMap.size (modelCache r))%nat.
  - unfold cleanupModelCache at 1. unfold OMap.size. rewrite Hsize.
    destruct (Nat.ltb_spec maxCacheSize
                (length (modelCache r) `min` maxCacheSize)%nat); [lia|done].
Qed.

(** The loop of [optimizeModels], entry by entry. *)
Lemma optimizeModels_loop (now : Z) (todo pre : list (string * ModelInfo)) r :
  aiModels r = filter (λ e, idleUnused now e.2 = false) pre ++ todo →
  NoDup (OMap.keys (pre ++ todo)) →
  let r' := foldl (optimizeModel now) r todo in
  aiModels r' = filter (λ e, idleUnused now e.2 = false) (pre ++ todo) ∧
  disposed r' =
    disposed r ++
    (filter (λ e, idleUnused now e.2 = true ∧ disposable e.2 = true) todo).*1 ∧
  modelCache r' = modelCache r ∧ inferenceCount r' = inferenceCount r.
Proof.
  revert pre r. induction todo as [|[k info] todo IH]; intros pre r Hmodels Hnd.
  - cbv zeta. cbn [foldl]. rewrite filter_nil. csimpl.
    rewrite !app_nil_r in *. done.
  - cbn [foldl].
    assert (Hnd' : NoDup (OMap.keys ((pre ++ [(k, info)]) ++ todo)))
      by (by rewrite <- app_assoc).
    unfold OMap.keys in Hnd. rewrite fmap_app, fmap_cons in Hnd.
    apply NoDup_app in Hnd as (_ & Hpre & Htodo).
    apply NoDup_cons in Htodo as [Hfresh _].
    assert (Hkpre : k ∉ (filter (λ e, idleUnused now e.2 = false) pre).*1).
    { intros Hin. apply list_elem_of_fmap in Hin as ([k' i'] & -> & Hin).
      apply list_elem_of_filter in Hin as [_ Hin].
      apply (Hpre k'); [|apply list_elem_of_here].
      apply list_elem_of_fmap. by exists (k', i'). }
    set (r1 := optimizeModel now r (k, info)).
    assert (Hr1 :
      aiModels r1
        = filter (λ e, idleUnused now e.2 = false) (pre ++ [(k, info)]) ++ todo ∧
      disposed r1
        = disposed r ++ (if idleUnused now info && disposable info
                         then [k] else []) ∧
      modelCache r1 = modelCache r ∧ inferenceCount r1 = inferenceCount r).
    { subst r1. unfold optimizeModel.
      fold (idleUnused now info). fold (disposable info).
      destruct (idleUnused now info) eqn:Hidle; cbn [aiModels disposed andb].
      - rewrite Hmodels, omap_delete_app.
        rewrite omap_delete_fresh by done.
        rewrite omap_delete_head by done.
        rewrite filter_app, filter_cons_False by (simpl; congruence).
        rewrite filter_nil, app_nil_r.
        destruct (disposable info); [done|]. by rewrite app_nil_r.
      - rewrite Hmodels.
        rewrite filter_app, filter_cons_True by done.
        rewrite filter_nil, <- app_assoc, app_nil_r. done. }
    destruct Hr1 as (Hm1 & Hd1 & Hc1 & Hi1).
    destruct (IH (pre ++ [(k, info)]) r1 Hm1 Hnd') as (Hm & Hd & Hc & Hi).
    cbv zeta in *. rewrite Hm, Hd, Hc, Hi, Hd1, Hc1, Hi1.
    rewrite <- !app_assoc. split; [done|]. split; [|done].
    f_equal. rewrite filter_cons. cbn [snd].
    destruct (idleUnused now info), (disposable info); cbn [andb].
    + by rewrite decide_True.
    + by rewrite decide_False by (intros [_ ?]; done).
    + by rewrite decide_False by (intros [? _]; done).
    + by rewrite decide_False by (intros [? _]; done).
Qed.

(** X11. [optimizeModels] unloads exactly the models that have been idle
    for more than 30 minutes and were never used; the others stay, in
    their order.  Of the unloaded ones the TensorFlow models with a
    [dispose] method are disposed.  The cache and the inference count are
    not touched. *)
Theorem optimizeModels_unloads_idle_unused (now : Z) r :
  NoDup (OMap.keys (aiModels r)) →
  let r' := optimizeModels now r in
  aiModels r' = filter (λ e, idleUnused now e.2 = false) (aiModels r) ∧
  disposed r' =
    disposed r ++
    (filter (λ e, idleUnused now e.2 = true ∧ disposable e.2 = true)
            (aiModels r)).*1 ∧
  modelCache r' = modelCache r ∧ inferenceCount r' = inferenceCount r.
Proof.
  intros Hnd. apply (optimizeModels_loop now (aiModels r) [] r); done.
Qed.

End registry_facts.

Lemma cleanupModelCache_keeps_newest_witness :
  ModelRegistry.modelCache (ModelRegistry.cleanupModelCache 2 sampleCacheRegistry)
  = [("k2", Some [2%Z]); ("k3", Some [3%Z])].
Proof.
  destruct (cleanupModelCache_keeps_newest 2 sampleCacheRegistry) as [H _].
  - apply (bool_decide_unpack _). vm_compute. exact I.
  - exact H.
Defined.

Lemma optimizeModels_unloads_idle_unused_witness :
  ModelRegistry.aiModels (ModelRegistry.optimizeModels 1800001 sampleRegistry) = [] ∧
  ModelRegistry.disposed (ModelRegistry.optimizeModels 1800001 sampleRegistry)
  = ["classifier"] ∧
  ModelRegistry.aiModels (ModelRegistry.optimizeModels 1800000 sampleRegistry)
  = ModelRegistry.aiModels sampleRegistry.
Proof.
  destruct (optimizeModels_unloads_idle_unused 1800001 sampleRegistry)
    as (Hm & Hd & _); [apply (bool_decide_unpack _); vm_compute; exact I|].
  destruct (optimizeModels_unloads_idle_unused 1800000 sampleRegistry)
    as (Hm' & _); [apply (bool_decide_unpack _); vm_compute; exact I|].
  cbv zeta in *. rewrite Hm, Hd, Hm'. vm_compute. done.
Defined.

Section inference_facts.
Import ModelRegistry.
Context {Input Output Err : Type}.
Variable generateCacheKey : string → Input → string.
Implicit Types (r : @Registry Output) (predict : string → Input → Output + Err).

(** X12. Once [runInference] has returned a result for a model and an
    input, asking again returns the same result from the cache: the model
    is not run (whatever it would predict now), and nothing changes, not
    even the model's usage count or last-used time. *)
Theorem runInference_cached
    predict (now : Z) (modelName : string) (inputData : Input) r r'
    (result : Output) :
  runInference generateCacheKey predict now modelName inputData r
    = (inl (Some result), r') →
  ∀ predict' (now' : Z),
    runInference generateCacheKey predict' now' modelName inputData r'
      = (inl (Some result), r').
Proof.
  unfold runInference. intros Hrun predict' now'.
  destruct (OMap.get (aiModels r) modelName) as [info|] eqn:Hmodel; [|done].
  destruct (OMap.get (modelCache r) (generateCacheKey modelName inputData))
    as [[cached|]|] eqn:Hcache.
  - injection Hrun as <- <-. by rewrite Hmodel, Hcache.
  - destruct (String.eqb (model_type info) "tensorflow"
              || String.eqb (model_type info) "onnx"); [|done].
    destruct (predict modelName inputData); [|done].
    injection Hrun as <- <-. cbn [aiModels modelCache].
    by rewrite !omap_get_set_eq.
  - destruct (String.eqb (model_type info) "tensorflow"
              || String.eqb (model_type info) "onnx"); [|done].
    destruct (predict modelName inputData); [|done].
    injection Hrun as <- <-. cbn [aiModels modelCache].
    by rewrite !omap_get_set_eq.
Qed.

(** X13. A model that has run an inference (one not served from the
    cache) is never unloaded afterwards: however long it then stays idle,
    [optimizeModels] keeps it, because its usage count is never reset. *)
Theorem used_model_is_never_unloaded
    predict (now : Z) (modelName : string) (inputData : Input) r r'
    (out : option Output) :
  NoDup (OMap.keys (aiModels r)) →
  OMap.get (modelCache r) (generateCacheKey modelName inputData) = None →
  runInference generateCacheKey predict now modelName inputData r = (inl out, r') →
  ∀ later : Z, ∃ info,
    OMap.get (aiModels (optimizeModels later r')) modelName = Some info ∧
    (0 < usageCount info)%N ∧ lastUsed info = now.
Proof.
  unfold runInference. intros Hnd Hmiss Hrun later.
  destruct (OMap.get (aiModels r) modelName) as [info|] eqn:Hmodel; [|done].
  rewrite Hmiss in Hrun.
  set (info' := {| model_type := model_type info; hasDispose := hasDispose info;
                   lastUsed := now; usageCount := usageCount info + 1 |}) in *.
  assert (Hr' : aiModels r' = OMap.set (aiModels r) modelName info').
  { destruct (String.eqb (model_type info) "tensorflow"
              || String.eqb (model_type info) "onnx").
    - destruct (predict modelName inputData); [|done]. by injection Hrun as <- <-.
    - by injection Hrun as <- <-. }
  assert (Hnd' : NoDup (OMap.keys (aiModels r')))
    by (rewrite Hr'; by apply omap_NoDup_set).
  destruct (optimizeModels_loop later (aiModels r') [] r' eq_refl Hnd')
    as (Hkept & _).
  cbv zeta in Hkept. fold (optimizeModels later r') in Hkept. simpl in Hkept. exists info'. split; [|split; [simpl; lia|done]].
  rewrite Hkept. apply omap_elem_of_get.
  - unfold OMap.keys in *. eapply sublist_NoDup; [exact Hnd'|].
    apply fmap_sublist, sublist_filter.
  - apply list_elem_of_filter. split.
    + unfold idleUnused. cbn [snd]. apply andb_false_iff. right.
      apply N.eqb_neq. simpl. lia.
    + apply omap_get_elem_of. rewrite Hr'. apply omap_get_set_eq.
Qed.

End inference_facts.

Lemma runInference_cached_witness :
  ∃ r', ModelRegistry.runInference sampleCacheKey samplePredict 5
          "classifier" [1%Z; 2%Z] sampleRegistry = (inl (Some [2%Z; 3%Z]), r') ∧
        ModelRegistry.runInference sampleCacheKey (λ _ _, inr "offline") 9
          "classifier" [1%Z; 2%Z] r' = (inl (Some [2%Z; 3%Z]), r').
Proof.
  eexists. split; [vm_compute; reflexivity|].
  apply (runInference_cached sampleCacheKey samplePredict 5 "classifier"
           [1%Z; 2%Z] sampleRegistry _ [2%Z; 3%Z]).
  vm_compute. reflexivity.
Defined.

Lemma used_model_is_never_unloaded_witness :
  ∃ info,
    OMap.get
      (ModelRegistry.aiModels
         (ModelRegistry.optimizeModels 999999999
            (ModelRegistry.runInference sampleCacheKey samplePredict 5
               "classifier" [1%Z; 2%Z] sampleRegistry).2))
      "classifier" = Some info ∧
    (0 < ModelRegistry.usageCount info)%N ∧ ModelRegistry.lastUsed info = 5%Z.
Proof.
  apply (used_model_is_never_unloaded sampleCacheKey samplePredict 5
           "classifier" [1%Z; 2%Z] sampleRegistry _ (Some [2%Z; 3%Z])).
  - apply (bool_decide_unpack _). vm_compute. exact I.
  - vm_compute. reflexivity.
  - vm_compute. reflexivity.
Defined.

(** ** The local address *)

Lemma firstExternalIPv4_spec (ifaces : list NetworkInterface) :
  match firstExternalIPv4 ifaces with
  | Some a =>
      ∃ pre iface post, ifaces = pre ++ iface :: post ∧
        Forall (λ i, externalIPv4 i = false) pre ∧
        externalIPv4 iface = true ∧ a = address iface
  | None => Forall (λ i, externalIPv4 i = false) ifaces
  end.
Proof.
  induction ifaces as [|iface rest IH]; simpl; [constructor|].
  fold (externalIPv4 iface). destruct (externalIPv4 iface) eqn:Hext.
  - exists [], iface, rest. by repeat split.
  - destruct (firstExternalIPv4 rest) as [a|].
    + destruct IH as (pre & i & post & -> & Hpre & Hi & ->).
      exists (iface :: pre), i, post. repeat split; [|done].
      by constructor.
    + by constructor.
Qed.

(** X14. [getLocalIPAddress] returns the address of the first interface,
    in the order of [os.networkInterfaces()], that is IPv4 and not
    internal; when there is none it returns [localhost]. *)
Theorem getLocalIPAddress_first_external
    (interfaces : list (string * list NetworkInterface)) :
  let all := concat interfaces.*2 in
  (Forall (λ i, externalIPv4 i = false) all ∧
   getLocalIPAddress interfaces = "localhost") ∨
  (∃ pre iface post, all = pre ++ iface :: post ∧
     Forall (λ i, externalIPv4 i = false) pre ∧
     externalIPv4 iface = true ∧
     getLocalIPAddress interfaces = address iface).
Proof.
  induction interfaces as [|[name ifaces] rest IH]; csimpl.
  - left. split; [constructor|done].
  - pose proof (firstExternalIPv4_spec ifaces) as Hfirst.
    destruct (firstExternalIPv4 ifaces) as [a|].
    + right. destruct Hfirst as (pre & iface & post & -> & Hpre & Hi & ->).
      exists pre, iface, (post ++ concat rest.*2).
      rewrite <- app_assoc. done.
    + destruct IH as [[Hnone Hlocal]|(pre & iface & post & Hall & Hpre & Hi & Ha)].
      * left. split; [by apply Forall_app|done].
      * right. exists (ifaces ++ pre), iface, post.
        rewrite Hall, <- app_assoc. split; [done|].
        split; [by apply Forall_app|done].
Qed.

Example getLocalIPAddress_sample :
  getLocalIPAddress sampleInterfaces = "10.0.0.7" ∧
  getLocalIPAddress [] = "localhost".
Proof. split; reflexivity. Qed.

(** ** Submitting tasks *)

Section ordered_map_delete.
Context {K V : Type} `{EqDecision K}.
Implicit Types (m : list (K * V)) (k : K) (v : V).

Lemma omap_not_elem_of_delete m k : k ∉ OMap.keys (OMap.delete m k).
Proof.
  unfold OMap.keys, OMap.delete. intros Hin.
  apply list_elem_of_fmap in Hin as ([k' v'] & -> & Hin).
  apply list_elem_of_filter in Hin as [Hne _]. by apply Hne.
Qed.

Lemma omap_keys_delete_sublist m k :
  sublist (OMap.keys (OMap.delete m k)) (OMap.keys m).
Proof. unfold OMap.keys, OMap.delete. apply fmap_sublist, sublist_filter. Qed.

Lemma omap_size_delete m k :
  NoDup (OMap.keys m) → k ∈ OMap.keys m →
  S (OMap.size (OMap.delete m k)) = OMap.size m.
Proof.
  unfold OMap.keys, OMap.size, OMap.delete.
  induction m as [|[k' v'] m IH]; csimpl; intros Hnd Hin.
  - by apply elem_of_nil in Hin.
  - apply NoDup_cons in Hnd as [Hfresh Hnd].
    destruct (decide (k' = k)) as [->|Hne].
    + rewrite filter_cons_False by (simpl; tauto).
      fold (OMap.delete m k). rewrite omap_delete_fresh by done. done.
    + rewrite filter_cons_True by done. csimpl. f_equal.
      apply elem_of_cons in Hin as [Hin|Hin]; [congruence|]. by apply IH.
Qed.

End ordered_map_delete.

(** With no load entries the balancer stays on the local node. *)
Lemma selectOptimalNode_local_run (t : Task) (st : EdgeNode) :
  nodeLoads st = ∅ →
  selectOptimalNode t st =
  (Returned (nodeId (config st)),
   with_scored (scored st ++ nodeId (config st)
                  :: OMap.keys (meshClients st) ++ [nodeId (config st)]) st).
Proof.
  intros Hloads.
  assert (Hlocal : (selectOptimalNode t st).1 = Returned (nodeId (config st))).
  { apply selectOptimalNode_prefers_local. intros n _.
    destruct (decide (n = nodeId (config st))) as [->|Hn]; [apply Qle_refl|].
    rewrite (scoreOf_remote st n t Hn), Hloads, lookup_empty. simpl.
    eapply Qle_trans; [|apply scoreOf_range]. vm_compute. discriminate. }
  rewrite selectOptimalNode_run in Hlocal |- *. simpl in *.
  injection Hlocal as Hlocal. by rewrite Hlocal.
Qed.

(** A task without affinity is scheduled on the local node or on a
    connected peer. *)
Lemma scheduleTask_selects_live_node (t : Task) (st : EdgeNode) :
  JS.truthy_string (nodeAffinity (options t)) = false →
  ∃ n, (scheduleTask t st).1 = Returned n ∧
       (n = nodeId (config st) ∨ n ∈ OMap.keys (meshClients st)).
Proof.
  intros Ha. rewrite scheduleTask_no_affinity by done.
  rewrite selectOptimalNode_run. eexists. split; [reflexivity|].
  pose proof (pick_elem_of (λ n, scoreOf st n t)
                (OMap.keys (meshClients st) ++ [nodeId (config st)])
                (nodeId (config st)) (scoreOf st (nodeId (config st)) t)) as Hin.
  apply elem_of_cons in Hin as [Hin|Hin]; [by left|].
  apply elem_of_app in Hin as [Hin|Hin]; [by right|].
  apply list_elem_of_singleton in Hin. by left.
Qed.

(** What [submitTask] does up to the placement when the caller names no
    node and the balancer has no load entries. *)
Lemma submitTask_local_run (sendTaskToNode : Task → string → M unit)
    (taskId taskType taskData : string) (o : SubmitOptions) (st : EdgeNode) :
  opt_nodeAffinity o = None → nodeLoads st = ∅ →
  let task :=
    {| task_id := taskId; task_type := taskType; task_data := taskData;
       options := taskOptions (config st) o;
       submittedBy := nodeId (config st); status := "pending"; jobId := None |} in
  let st1 :=
    with_scored (scored st ++ nodeId (config st)
                   :: OMap.keys (meshClients st) ++ [nodeId (config st)])
      (with_tasks (<[taskId := task]> (tasks st)) st) in
  submitTask sendTaskToNode taskId taskType taskData o st =
  match processTaskLocally task st1 with
  | (Returned _, st') => (Returned taskId, st')
  | (Thrown e, st') => (Thrown e, st')
  end.
Proof.
  intros Hna Hloads task st1. unfold submitTask.
  repeat (rewrite bind_run; simpl). fold task.
  rewrite scheduleTask_no_affinity by (simpl; by rewrite Hna).
  rewrite selectOptimalNode_local_run by done. simpl.
  rewrite decide_True by done. rewrite bind_run. fold st1.
  by destruct (processTaskLocally task st1) as [[[]|e] st'].
Qed.

(** X15. A task of a type the node has no queue for, submitted without
    affinity while the balancer has no load entries, is rejected with
    [Unknown task type] after it has been registered: it stays in [tasks]
    with the status [pending], no job is queued and no event is
    emitted. *)
Theorem submitTask_unknown_type_stays_pending
    (sendTaskToNode : Task → string → M unit)
    (taskId taskType taskData : string) (o : SubmitOptions) (st : EdgeNode) :
  opt_nodeAffinity o = None → nodeLoads st = ∅ →
  processingQueues st !! taskType = None →
  ∃ st',
    submitTask sendTaskToNode taskId taskType taskData o st
      = (Thrown (UnknownTaskType taskType), st') ∧
    status <$> tasks st' !! taskId = Some "pending" ∧
    processingQueues st' = processingQueues st ∧
    emitted st' = emitted st.
Proof.
  intros Hna Hloads Hq. rewrite submitTask_local_run by done.
  unfold processTaskLocally. rewrite bind_run. simpl. rewrite Hq. simpl.
  eexists. split; [reflexivity|]. simpl. by rewrite lookup_insert_eq.
Qed.

(** X16. A task of a type the node has a queue for, submitted without
    affinity while the balancer has no load entries, is placed locally:
    [submitTask] returns the task id, the task is in [tasks] with the
    status [processing] and the id of its job, the job is in the queue of
    its type, [taskStarted] is emitted, and [sendTaskToNode] is not
    called. *)
Theorem submitTask_places_locally
    (sendTaskToNode : Task → string → M unit)
    (taskId taskType taskData : string) (o : SubmitOptions) (st : EdgeNode)
    (q : Queue) :
  opt_nodeAffinity o = None → nodeLoads st = ∅ →
  processingQueues st !! taskType = Some q →
  ∃ st' task job q',
    submitTask sendTaskToNode taskId taskType taskData o st = (Returned taskId, st') ∧
    submitTask (λ _ _, throw TypeError) taskId taskType taskData o st
      = (Returned taskId, st') ∧
    tasks st' !! taskId = Some task ∧
    status task = "processing" ∧ jobId task = Some (job_id job) ∧
    job_id job = (jobCounter q + 1)%N ∧
    job_priority job = getPriorityValue (priority (taskOptions (config st) o)) ∧
    processingQueues st' !! taskType = Some q' ∧
    job ∈ waiting q' ++ delayed q' ∧
    emitted st' = emitted st ++ [taskStarted taskId].
Proof.
  intros Hna Hloads Hq.
  assert (Hany : ∀ send, ∃ st' task job q',
    submitTask send taskId taskType taskData o st = (Returned taskId, st') ∧
    tasks st' !! taskId = Some task ∧
    status task = "processing" ∧ jobId task = Some (job_id job) ∧
    job_id job = (jobCounter q + 1)%N ∧
    job_priority job = getPriorityValue (priority (taskOptions (config st) o)) ∧
    processingQueues st' !! taskType = Some q' ∧
    job ∈ waiting q' ++ delayed q' ∧
    emitted st' = emitted st ++ [taskStarted taskId] ∧
    submitTask (λ _ _, throw TypeError) taskId taskType taskData o st
      = (Returned taskId, st')).
  { intros send.
    rewrite !submitTask_local_run by done. cbv zeta.
    erewrite processTaskLocally_run by (simpl; exact Hq).
    cbv zeta. rewrite decide_True by (simpl; apply lookup_insert_eq).
    cbn [task_data task_id task_type options].
    destruct (queue_add taskData
                (getPriorityValue (priority (taskOptions (config st) o)))
                (default 0%N (delay (taskOptions (config st) o)))
                (timeout (taskOptions (config st) o)) q) as [job q'] eqn:Hadd.
    eexists _, _, job, q'. split; [reflexivity|]. simpl.
    rewrite !lookup_insert_eq. unfold queue_add in Hadd.
    destruct (default 0%N (delay (taskOptions (config st) o)) =? 0)%N;
      injection Hadd as <- <-; simpl;
      repeat split; try done.
    - apply elem_of_app. left. apply elem_of_app. right. apply list_elem_of_here.
    - apply elem_of_app. right. apply elem_of_app. right. apply list_elem_of_here. }
  destruct (Hany sendTaskToNode)
    as (st' & task & job & q' & H1 & H2 & H3 & H4 & H5 & H6 & H7 & H8 & H9 & H10).
  exists st', task, job, q'. repeat split; done.
Qed.

Lemma submitTask_unknown_type_stays_pending_witness :
  ∃ st',
    submitTask (λ _ _, mret ()) "task-7" "quantum-processing" "payload"
      {| opt_priority := None; opt_timeout := None; opt_retries := None;
         opt_nodeAffinity := None; opt_delay := None |} loneNode
      = (Thrown (UnknownTaskType "quantum-processing"), st') ∧
    status <$> tasks st' !! "task-7" = Some "pending" ∧
    processingQueues st' = processingQueues loneNode ∧
    emitted st' = emitted loneNode.
Proof.
  apply (submitTask_unknown_type_stays_pending (λ _ _, mret ()) "task-7"
           "quantum-processing" "payload" _ loneNode);
    vm_compute; reflexivity.
Defined.

Lemma submitTask_places_locally_witness :
  ∃ st', submitTask (λ _ _, mret ()) "task-8" "image-processing" "payload"
      {| opt_priority := Some "high"; opt_timeout := None; opt_retries := None;
         opt_nodeAffinity := None; opt_delay := None |} loneNode
      = (Returned "task-8", st') ∧
    status <$> tasks st' !! "task-8" = Some "processing" ∧
    (λ q, job_priority <$> waiting q) <$> processingQueues st' !! "image-processing"
      = Some [JS.Num 10].
Proof.
  destruct (submitTask_places_locally (λ _ _, mret ()) "task-8"
              "image-processing" "payload"
              {| opt_priority := Some "high"; opt_timeout := None;
                 opt_retries := None; opt_nodeAffinity := None;
                 opt_delay := None |} loneNode emptyQueue)
    as (st' & task & job & q' & Hrun & _); [vm_compute; reflexivity..|].
  exists st'. split; [exact Hrun|].
  assert (Hst' : st' = (submitTask (λ _ _, mret ()) "task-8" "image-processing"
             "payload" {| opt_priority := Some "high"; opt_timeout := None;
                          opt_retries := None; opt_nodeAffinity := None;
                          opt_delay := None |} loneNode).2)
    by (by rewrite Hrun).
  rewrite Hst'. vm_compute. done.
Defined.

(** X17. Without affinity and with no load entries for the peers (nothing
    in the engine records any), [scheduleTask] always answers the local
    node: no task is sent to a peer, however loaded the local node is. *)
Theorem scheduleTask_stays_local (t : Task) (st : EdgeNode) :
  JS.truthy_string (nodeAffinity (options t)) = false →
  nodeLoads st = ∅ →
  (scheduleTask t st).1 = Returned (nodeId (config st)).
Proof.
  intros Ha Hloads. rewrite scheduleTask_no_affinity by done.
  by rewrite selectOptimalNode_local_run.
Qed.

Lemma scheduleTask_stays_local_witness :
  (scheduleTask scenarioTask
     (sampleNode (percent 400) 100 [peer "edge-2" queueTypes] ∅ [])).1
  = Returned "edge-1".
Proof.
  apply (scheduleTask_stays_local scenarioTask
           (sampleNode (percent 400) 100 [peer "edge-2" queueTypes] ∅ []));
    vm_compute; reflexivity.
Defined.

(** ** The mesh *)

(** X18. Once the socket to a peer has closed, no task without affinity
    is scheduled on that peer. *)
Theorem closed_peer_is_not_selected (n : NodeInfo) (t : Task) (st : EdgeNode) :
  node_id n ≠ nodeId (config st) →
  JS.truthy_string (nodeAffinity (options t)) = false →
  (scheduleTask t (onMeshClose n st).2).1 ≠ Returned (node_id n).
Proof.
  intros Hn Ha Hsel.
  destruct (scheduleTask_selects_live_node t (onMeshClose n st).2 Ha)
    as (m & Hm & Hlive).
  rewrite Hsel in Hm. injection Hm as <-. simpl in Hlive.
  destruct Hlive as [Hlocal|Hin]; [done|].
  by apply omap_not_elem_of_delete in Hin.
Qed.

Lemma closed_peer_is_not_selected_witness :
  (scheduleTask scenarioTask (onMeshClose (peerInfo "edge-2") meshedNode).2).1
  ≠ Returned "edge-2".
Proof.
  apply (closed_peer_is_not_selected (peerInfo "edge-2") scenarioTask meshedNode).
  - vm_compute. discriminate.
  - reflexivity.
Defined.

Lemma onMeshEvent_run (e : MeshEvent) (st : EdgeNode) :
  onMeshEvent e st =
  (Returned (),
   with_meshClients
     match e with
     | Opened n => OMap.set (meshClients st) (node_id n) {| node := n |}
     | Closed n => OMap.delete (meshClients st) (node_id n)
     end st).
Proof. by destruct e. Qed.

(** X19. Sockets are opened only to the nodes [discoverEdgeNodes] picks,
    and it never picks the node itself.  So whatever opens and closes on
    those sockets, the node does not become its own peer, and the peers
    keep distinct ids. *)
Theorem discovery_never_connects_to_self
    (published : list NodeInfo) (es : list MeshEvent) (st : EdgeNode) :
  Forall (λ e, eventNode e ∈ discoverEdgeNodes published st) es →
  nodeId (config st) ∉ OMap.keys (meshClients st) →
  NoDup (OMap.keys (meshClients st)) →
  ∃ st', onMeshEvents es st = (Returned (), st') ∧
    (nodeId (config st') ∉ OMap.keys (meshClients st')) ∧
    NoDup (OMap.keys (meshClients st')) ∧
    config st' = config st.
Proof.
  revert st. induction es as [|e es IH]; intros st Hes Hself Hnd.
  - by exists st.
  - apply Forall_cons in Hes as [He Hes].
    cbn [onMeshEvents]. rewrite bind_run, onMeshEvent_run.
    set (st1 := with_meshClients _ st).
    assert (Hne : node_id (eventNode e) ≠ nodeId (config st)).
    { unfold discoverEdgeNodes in He.
      by apply list_elem_of_filter in He as [Hne _]. }
    destruct (IH st1) as (st' & Hrun & Hself' & Hnd' & Hcfg).
    + exact Hes.
    + subst st1. simpl. destruct e as [n|n]; simpl in Hne.
      * destruct (decide (node_id n ∈ OMap.keys (meshClients st))) as [Hin|Hnin].
        -- by rewrite omap_keys_set_present.
        -- rewrite omap_set_fresh by done. unfold OMap.keys in *.
           rewrite fmap_app. intros Hin. apply elem_of_app in Hin as [Hin|Hin];
             [done|]. apply list_elem_of_singleton in Hin. simpl in Hin. done.
      * intros Hin. apply Hself.
        eapply elem_of_sublist; [exact Hin|]. apply omap_keys_delete_sublist.
    + subst st1. simpl. destruct e as [n|n].
      * by apply omap_NoDup_set.
      * eapply sublist_NoDup; [exact Hnd|]. apply omap_keys_delete_sublist.
    + exists st'. split; [exact Hrun|]. split; [done|]. split; [done|].
      by rewrite Hcfg.
Qed.

Lemma discovery_never_connects_to_self_witness :
  ∃ st', onMeshEvents [Opened (peerInfo "edge-4"); Closed (peerInfo "edge-2");
                       Opened (peerInfo "edge-4")] meshedNode = (Returned (), st') ∧
    OMap.keys (meshClients st') = ["edge-3"; "edge-4"].
Proof.
  destruct (discovery_never_connects_to_self
              [peerInfo "edge-1"; peerInfo "edge-2"; peerInfo "edge-4"]
              [Opened (peerInfo "edge-4"); Closed (peerInfo "edge-2");
               Opened (peerInfo "edge-4")] meshedNode)
    as (st' & Hrun & _).
  - repeat apply Forall_cons_2; [..|by apply Forall_nil]; vm_compute;
      repeat first [apply list_elem_of_here | apply list_elem_of_further].
  - apply (bool_decide_unpack _). vm_compute. exact I.
  - apply (bool_decide_unpack _). vm_compute. exact I.
  - exists st'. split; [exact Hrun|].
    assert (Hst' : st' = (onMeshEvents [Opened (peerInfo "edge-4");
                            Closed (peerInfo "edge-2");
                            Opened (peerInfo "edge-4")] meshedNode).2)
      by (by rewrite Hrun).
    rewrite Hst'. vm_compute. reflexivity.
Defined.

(** ** The cluster *)

(** X20. In the master process [initializeCluster] forks exactly
    [config.cluster.workers] workers and files each under its id; in a
    worker process it leaves the node as it is. *)
Theorem initializeCluster_forks_workers (clusterWorkers : nat) (st : EdgeNode) :
  workers_wf st →
  ∃ st', initializeCluster clusterWorkers st = (Returned (), st') ∧
    workers_wf st' ∧
    OMap.size (workers st') =
      (if isMaster st then clusterWorkers + OMap.size (workers st)
       else OMap.size (workers st))%nat ∧
    (isMaster st = false → st' = st).
Proof.
  intros Hwf. unfold initializeCluster. rewrite bind_run. simpl.
  destruct (isMaster st) eqn:Hmaster.
  - destruct (forkWorkers_wf clusterWorkers st Hwf) as (st' & Hrun & Hwf' & Hsize).
    exists st'. split; [exact Hrun|]. split; [exact Hwf'|].
    split; [exact Hsize|]. intros [=].
  - exists st. split; [reflexivity|]. split; [exact Hwf|]. done.
Qed.

Lemma initializeCluster_forks_workers_witness :
  ∃ st', initializeCluster 4 scenarioNode = (Returned (), st') ∧
    OMap.size (workers st') = 4%nat.
Proof.
  destruct (initializeCluster_forks_workers 4 scenarioNode)
    as (st' & Hrun & _ & Hsize & _).
  - apply (bool_decide_unpack _). vm_compute. exact I.
  - exists st'. split; [exact Hrun|]. exact Hsize.
Defined.

(** What the [exit] handler leaves behind. *)
Lemma onWorkerExit_run (w : Worker) (st : EdgeNode) :
  onWorkerExit w st =
  (Returned (),
   with_workers
     (OMap.set (OMap.delete (workers st) (worker_id w)) (cluster_ids st + 1)%N
        (workerEntry {| worker_id := cluster_ids st + 1 |}))
     (with_cluster_ids (cluster_ids st + 1)
        (with_workers (OMap.delete (workers st) (worker_id w)) st))).
Proof. reflexivity. Qed.

Lemma onWorkerExit_size (w : Worker) (st : EdgeNode) :
  workers_wf st →
  OMap.size (workers (onWorkerExit w st).2) =
  S (OMap.size (OMap.delete (workers st) (worker_id w))).
Proof.
  intros Hwf. rewrite onWorkerExit_run. simpl.
  assert (Hfresh : (cluster_ids st + 1)%N
                     ∉ OMap.keys (OMap.delete (workers st) (worker_id w))).
  { intros Hin. apply (workers_wf_next_id_fresh st Hwf).
    eapply elem_of_sublist; [exact Hin|]. apply omap_keys_delete_sublist. }
  rewrite omap_set_fresh by done.
  unfold OMap.size. rewrite length_app. simpl. lia.
Qed.

(** X21. When a worker the node tracks exits, the [exit] handler replaces
    it: the number of workers is as before.  When the worker is not (or
    no longer) tracked, the handler still forks one: the number grows by
    one. *)
Theorem onWorkerExit_replaces_worker (w : Worker) (st : EdgeNode) :
  workers_wf st →
  ∃ st', onWorkerExit w st = (Returned (), st') ∧
    workers_wf st' ∧
    OMap.size (workers st') =
      (if decide (worker_id w ∈ OMap.keys (workers st))
       then OMap.size (workers st) else S (OMap.size (workers st))) ∧
    (cluster_ids st + 1)%N ∈ OMap.keys (workers st').
Proof.
  intros Hwf. destruct (onWorkerExit_wf st w Hwf) as (st' & Hrun & Hwf').
  exists st'. split; [exact Hrun|]. split; [exact Hwf'|].
  pose proof (onWorkerExit_size w st Hwf) as Hsize. rewrite Hrun in Hsize.
  simpl in Hsize. split.
  - rewrite Hsize. destruct (decide (worker_id w ∈ OMap.keys (workers st))).
    + apply omap_size_delete; [apply Hwf|done].
    + by rewrite omap_delete_fresh.
  - rewrite onWorkerExit_run in Hrun. injection Hrun as <-. simpl.
    rewrite omap_set_fresh.
    + unfold OMap.keys. rewrite fmap_app. apply elem_of_app. right.
      apply list_elem_of_here.
    + intros Hin. apply (workers_wf_next_id_fresh st Hwf).
      eapply elem_of_sublist; [exact Hin|]. apply omap_keys_delete_sublist.
Qed.

Lemma onWorkerExit_replaces_worker_witness :
  ∃ st', onWorkerExit {| worker_id := 1 |} twoWorkerNode = (Returned (), st') ∧
    OMap.keys (workers st') = [2%N; 3%N].
Proof.
  destruct (onWorkerExit_replaces_worker {| worker_id := 1 |} twoWorkerNode)
    as (st' & Hrun & _).
  - apply (bool_decide_unpack _). vm_compute. exact I.
  - exists st'. split; [exact Hrun|].
    assert (Hst' : st' = (onWorkerExit {| worker_id := 1 |} twoWorkerNode).2)
      by (by rewrite Hrun).
    rewrite Hst'. vm_compute. reflexivity.
Defined.

(** What [optimizeResources] does when it removes a worker. *)
Lemma optimizeResources_removal_run (st : EdgeNode) (k : N) (info : WorkerInfo)
    (rest : list (N * WorkerInfo)) :
  workers_wf st →
  cluster_enabled (config st) && isMaster st = true →
  (toQ (cpuUsage st) < 30)%Q →
  workers st = (k, info) :: rest → rest ≠ [] →
  optimizeResources st =
  (Returned (), with_workers rest (with_killed (killed st ++ [k]) st)).
Proof.
  intros Hwf Hactive Hlow Hworkers Hrest.
  destruct (workers_wf_head st k info rest Hwf Hworkers)
    as (Hid & Hfresh & _ & _).
  unfold optimizeResources. repeat (rewrite bind_run; simpl).
  rewrite Hactive. repeat (rewrite bind_run; simpl).
  assert (Hhigh : Qgtb (toQ (cpuUsage st)) 80 = false)
    by (apply Qgtb_false; lra).
  assert (Hlow' : Qgtb 30 (toQ (cpuUsage st)) = true) by (by apply Qgtb_true).
  rewrite Hhigh, Hlow'. simpl. rewrite Hworkers.
  destruct rest as [|e rest']; [done|]. simpl.
  repeat (rewrite bind_run; simpl). rewrite Hworkers. csimpl.
  repeat (rewrite bind_run; csimpl). unfold kill, modify. simpl.
  rewrite Hworkers, Hid. by rewrite omap_delete_head.
Qed.

(** X22. A scale-down does not last.  When [optimizeResources] removes a
    worker it kills the oldest one and forgets it; when the [exit] event
    of that worker arrives, the handler forks a replacement, and the
    number of workers is what it was before the removal. *)
Theorem scale_down_is_undone_by_exit_handler (st : EdgeNode) :
  workers_wf st →
  cluster_enabled (config st) && isMaster st = true →
  (toQ (cpuUsage st) < 30)%Q →
  (1 < OMap.size (workers st))%nat →
  ∃ (w : N) st1 st2,
    optimizeResources st = (Returned (), st1) ∧
    killed st1 = killed st ++ [w] ∧
    S (OMap.size (workers st1)) = OMap.size (workers st) ∧
    onWorkerExit {| worker_id := w |} st1 = (Returned (), st2) ∧
    OMap.size (workers st2) = OMap.size (workers st).
Proof.
  intros Hwf Hactive Hlow Hsize.
  destruct (workers st) as [|[k info] rest] eqn:Hworkers; [simpl in Hsize; lia|].
  assert (Hrest : rest ≠ []) by (intros ->; simpl in Hsize; lia).
  pose proof (optimizeResources_removal_run st k info rest
                Hwf Hactive Hlow Hworkers Hrest) as Hrun.
  destruct (workers_wf_head st k info rest Hwf Hworkers)
    as (Hid & Hfresh & Hnd & Hall).
  set (st1 := with_workers rest (with_killed (killed st ++ [k]) st)) in *.
  assert (Hwf1 : workers_wf st1) by (by split).
  exists k, st1, (onWorkerExit {| worker_id := k |} st1).2.
  split; [exact Hrun|]. split; [done|]. split; [done|].
  split; [by rewrite onWorkerExit_run|].
  rewrite onWorkerExit_size by done. simpl.
  by rewrite omap_delete_fresh.
Qed.

Lemma scale_down_is_undone_by_exit_handler_witness :
  ∃ (w : N) st1 st2,
    optimizeResources twoWorkerNode = (Returned (), st1) ∧
    killed st1 = killed twoWorkerNode ++ [w] ∧
    S (OMap.size (workers st1)) = OMap.size (workers twoWorkerNode) ∧
    onWorkerExit {| worker_id := w |} st1 = (Returned (), st2) ∧
    OMap.size (workers st2) = OMap.size (workers twoWorkerNode).
Proof.
  apply (scale_down_is_undone_by_exit_handler twoWorkerNode).
  - apply (bool_decide_unpack _). vm_compute. exact I.
  - reflexivity.
  - vm_compute. reflexivity.
  - vm_compute. lia.
Defined.

(** ** Placement and load *)

(** X23. Placing a task locally without delay makes the queue of its
    type one job longer and leaves the other queues alone; so the local
    score for that type drops by exactly 1, until it reaches the floor
    of 0. *)
Theorem local_placement_lowers_score (st : EdgeNode) (t : Task) (q : Queue) :
  processingQueues st !! task_type t = Some q →
  default 0%N (delay (options t)) = 0%N →
  let local := nodeId (config st) in
  let st' := (processTaskLocally t st).2 in
  queueDepth st' (task_type t) = S (queueDepth st (task_type t)) ∧
  (∀ ty, ty ≠ task_type t → queueDepth st' ty = queueDepth st ty) ∧
  (scoreOf st' local t <= scoreOf st local t)%Q ∧
  ((1 <= scoreOf st local t)%Q →
   (scoreOf st' local t == scoreOf st local t - 1)%Q).
Proof.
  intros Hq Hdelay local st'.
  assert (Hdepth : queueDepth st' (task_type t) = S (queueDepth st (task_type t))).
  { subst st'. rewrite (processTaskLocally_run st t q Hq). cbv zeta.
    unfold queueDepth, queue_add. rewrite Hdelay.
    destruct (decide (tasks st !! task_id t = Some t)); simpl;
      rewrite lookup_insert_eq, Hq; simpl; rewrite length_app; simpl; lia. }
  split; [exact Hdepth|]. split.
  { intros ty Hty. subst st'. rewrite (processTaskLocally_run st t q Hq).
    cbv zeta. unfold queueDepth.
    destruct (decide (tasks st !! task_id t = Some t)); simpl;
      by rewrite lookup_insert_ne. }
  assert (Hscore' : (scoreOf st' local t ==
            Qmax 0 (100 - toQ (cpuUsage st) - memoryPercent st
                    - inject_Z (Z.of_nat (queueDepth st (task_type t))) - 1))%Q).
  { assert (Hlocal : local = nodeId (config st')).
    { subst st'. rewrite (processTaskLocally_run st t q Hq). cbv zeta.
      by destruct (decide (tasks st !! task_id t = Some t)). }
    rewrite Hlocal, scoreOf_local, Hdepth.
    assert (Hcpu : cpuUsage st' = cpuUsage st)
      by (subst st'; rewrite (processTaskLocally_run st t q Hq); cbv zeta;
          by destruct (decide (tasks st !! task_id t = Some t))).
    assert (Hmem : memoryPercent st' = memoryPercent st)
      by (subst st'; rewrite (processTaskLocally_run st t q Hq); cbv zeta;
          by destruct (decide (tasks st !! task_id t = Some t))).
    rewrite Hcpu, Hmem. apply Q.max_compat; [reflexivity|].
    rewrite Nat2Z.inj_succ. unfold Z.succ. rewrite inject_Z_plus.
    change (inject_Z 1) with 1%Q. ring. }
  pose proof (scoreOf_local st t) as Hscore. fold local in Hscore.
  set (raw := (100 - toQ (cpuUsage st) - memoryPercent st
               - inject_Z (Z.of_nat (queueDepth st (task_type t))))%Q) in *.
  split.
  - rewrite Hscore', Hscore. apply Q.max_le_compat_l. lra.
  - intros Hone. rewrite Hscore in Hone. rewrite Hscore', Hscore.
    destruct (Q.max_spec 0 raw) as [[Hlt Hmax]|[Hle Hmax]].
    + rewrite Hmax in Hone |- *. rewrite Q.max_r by lra. reflexivity.
    + rewrite Hmax in Hone. lra.
Qed.

Lemma local_placement_lowers_score_witness :
  queueDepth (processTaskLocally scenarioTask scenarioNode).2 "image-processing"
  = 1%nat ∧
  (scoreOf (processTaskLocally scenarioTask scenarioNode).2 "edge-1" scenarioTask
   == 69)%Q.
Proof.
  destruct (local_placement_lowers_score scenarioNode scenarioTask emptyQueue)
    as (Hdepth & _ & _ & Hscore); [vm_compute; reflexivity..|].
  split; [exact Hdepth|].
  rewrite Hscore; vm_compute; [reflexivity|discriminate].
Defined.

(** ** Configuration *)

(** X24. The constructor cannot be given zero retry attempts or a zero
    timeout: 0, like a missing option, is replaced by the default (3 and
    30000), so both are always positive.  The cluster is enabled unless
    [clusterEnabled] is exactly [false], and the node id is never empty
    when the generated id is not. *)
Theorem mkConfig_defaults (c : UserConfig) (generated : string) :
  let cfg := mkConfig c generated in
  (0 < retryAttempts cfg)%N ∧ (0 < timeoutMs cfg)%N ∧
  (user_retryAttempts c = Some 0%N → retryAttempts cfg = 3%N) ∧
  (user_timeoutMs c = Some 0%N → timeoutMs cfg = 30000%N) ∧
  (cluster_enabled cfg = false ↔ user_clusterEnabled c = Some false) ∧
  (generated ≠ "" → nodeId cfg ≠ "").
Proof.
  simpl. unfold orN. split; [|split; [|split; [|split; [|split]]]].
  - destruct (user_retryAttempts c) as [n|]; [|done].
    destruct (N.eqb_spec n 0); lia.
  - destruct (user_timeoutMs c) as [n|]; [|done].
    destruct (N.eqb_spec n 0); lia.
  - by intros ->.
  - by intros ->.
  - rewrite negb_false_iff, bool_decide_eq_true. done.
  - intros Hg. destruct (user_nodeId c) as [s|]; simpl; [|done].
    destruct (String.eqb s "") eqn:Hs; simpl; [done|].
    by apply String.eqb_neq.
Qed.
